(** * The crate-list helper of the Cargo easyblock

    A shallow embedding of [generate_crate_list] and of the script entry
    point of [easybuild/easyblocks/generic/cargo.py], with the properties
    its specification states about them.

    The helper loads [Cargo.toml] and [Cargo.lock] from a source directory,
    reads the package name, and splits the locked packages into the crates
    that come from the crates.io registry and the others.  The documents
    are modelled as the values the TOML parser hands back, Python's
    subscripting, membership, iteration and comparison are written out with
    the exceptions they raise, and file reads and printing go through an
    explicit world. *)

From Stdlib Require Import ZArith String Ascii List Lia.
From stdpp Require Import base option list strings gmap.

Local Open Scope string_scope.
Local Open Scope list_scope.
Local Set Warnings "-register-all".

(** ** Parsed TOML documents *)

(** What [toml.load] returns: strings, integers, booleans, arrays (Python
    lists) and tables (Python dicts, kept as their key/value pairs in
    insertion order; the parser refuses a repeated key).  Floats and
    date-times, which no field of a Cargo manifest read here holds, are
    left out. *)
Inductive toml : Type :=
  | TStr (s : string)
  | TInt (z : Z)
  | TBool (b : bool)
  | TArr (l : list toml)
  | TTab (t : list (string * toml)).

(** The exceptions this code can end in. *)
Inductive exn : Type :=
  | KeyError (key : string)
  | TypeError
  | IndexError
  | FileNotFoundError (path : string)
  | TomlDecodeError (path : string).

(** A computation that returns or raises. *)
Inductive res (A : Type) : Type :=
  | Ok (a : A)
  | Raise (e : exn).
Arguments Ok {A} a.
Arguments Raise {A} e.

#[global] Instance res_ret : MRet res := fun _ a => Ok a.
#[global] Instance res_bind : MBind res := fun _ _ f m =>
  match m with
  | Ok a => f a
  | Raise e => Raise e
  end.

(** ** Python's operations on parsed values *)

(** [d.get(k)] on the pairs of a dict. *)
Fixpoint assoc {A} (k : string) (t : list (string * A)) : option A :=
  match t with
  | [] => None
  | (k', v) :: t' => if String.eqb k k' then Some v else assoc k t'
  end.

(** [a == b].  Booleans compare as the integers 0 and 1, lists
    element by element, dicts by their key sets and the values under
    each key. *)
Fixpoint py_eq (a b : toml) : bool :=
  match a, b with
  | TStr x, TStr y => String.eqb x y
  | TInt x, TInt y => Z.eqb x y
  | TBool x, TBool y => Bool.eqb x y
  | TInt x, TBool y => Z.eqb x (Z.b2z y)
  | TBool x, TInt y => Z.eqb (Z.b2z x) y
  | TArr xs, TArr ys =>
      (fix all2 (xs ys : list toml) : bool :=
         match xs, ys with
         | [], [] => true
         | x :: xs', y :: ys' => py_eq x y && all2 xs' ys'
         | _, _ => false
         end) xs ys
  | TTab m, TTab n =>
      Nat.eqb (length m) (length n) &&
      (fix sub (m : list (string * toml)) : bool :=
         match m with
         | [] => true
         | (k, v) :: m' =>
             match assoc k n with
             | Some w => py_eq v w
             | None => false
             end && sub m'
         end) m
  | _, _ => false
  end.

(** [obj[key]] for a string key: a dict looks the key up and raises
    [KeyError] when it is absent; a string, a list or a number cannot be
    subscripted by a string. *)
Definition getitem (obj : toml) (key : string) : res toml :=
  match obj with
  | TTab t =>
      match assoc key t with
      | Some v => Ok v
      | None => Raise (KeyError key)
      end
  | _ => Raise TypeError
  end.

(** [key in obj] for a string key: a key of a dict, an element of a list,
    a substring of a string. *)
Definition contains (key : string) (obj : toml) : res bool :=
  match obj with
  | TTab t => Ok (bool_decide (is_Some (assoc key t)))
  | TArr l => Ok (existsb (fun x => py_eq (TStr key) x) l)
  | TStr s => Ok (bool_decide (is_Some (String.index 0 key s)))
  | TInt _ | TBool _ => Raise TypeError
  end.

Fixpoint chars (s : string) : list string :=
  match s with
  | EmptyString => []
  | String c s' => String c EmptyString :: chars s'
  end.

(** What [for x in obj] runs over: the elements of a list, the keys of a
    dict, the characters of a string. *)
Definition iterate (obj : toml) : res (list toml) :=
  match obj with
  | TArr l => Ok l
  | TTab t => Ok (map (fun kv => TStr (fst kv)) t)
  | TStr s => Ok (map TStr (chars s))
  | TInt _ | TBool _ => Raise TypeError
  end.

(** [s + v] with a string on the left. *)
Definition str_add (s : string) (v : toml) : res string :=
  match v with
  | TStr t => Ok (s +:+ t)
  | _ => Raise TypeError
  end.

(** ** generate_crate_list *)

(** The source tag of a package that comes from crates.io. *)
Definition registry_source : string :=
  "registry+https://github.com/rust-lang/crates.io-index".

(** A [(name, version)] tuple. *)
Definition crate : Type := toml * toml.

(** The three local variables the loop updates. *)
Record acc : Type := Acc {
  app_in_cratesio : bool;
  crates : list crate;
  other_crates : list crate
}.

Definition acc0 : acc := Acc false [] [].

(** The test [['source' in dep and dep['source'] == '...']]; [and] does not
    evaluate its right side when the left one is false. *)
Definition from_registry (dep : toml) : res bool :=
  has ← contains "source" dep;
  if (has : bool) then
    src ← getitem dep "source";
    mret (py_eq src (TStr registry_source))
  else mret false.

(** One pass of the loop body. *)
Definition loop_body (app_name : toml) (st : acc) (dep : toml) : res acc :=
  name ← getitem dep "name";
  version ← getitem dep "version";
  reg ← from_registry dep;
  if (reg : bool) then
    if py_eq name app_name then
      mret (Acc true (crates st) (other_crates st))
    else
      mret (Acc (app_in_cratesio st) (crates st ++ [(name, version)]) (other_crates st))
  else
    mret (Acc (app_in_cratesio st) (crates st) (other_crates st ++ [(name, version)])).

(** [for dep in deps: ...], stopping at the first exception. *)
Fixpoint loop (app_name : toml) (st : acc) (deps : list toml) : res acc :=
  match deps with
  | [] => Ok st
  | dep :: deps' =>
      st' ← loop_body app_name st dep;
      loop app_name st' deps'
  end.

(** The helper from the two parsed documents on. *)
Definition crate_list_of (cargo_toml cargo_lock : toml)
  : res (bool * list crate * list crate) :=
  package ← getitem cargo_toml "package";
  app_name ← getitem package "name";
  deps ← getitem cargo_lock "package";
  items ← iterate deps;
  st ← loop app_name acc0 items;
  mret (app_in_cratesio st, crates st, other_crates st).

(** ** Files and standard output *)

(** [os.path.join(a, b)] on a POSIX system. *)
Fixpoint ends_with_sep (s : string) : bool :=
  match s with
  | EmptyString => false
  | String c EmptyString => Ascii.eqb c "/"
  | String _ s' => ends_with_sep s'
  end.

Definition os_path_join (a b : string) : string :=
  if String.prefix "/" b then b
  else if String.eqb a "" || ends_with_sep a then a +:+ b
  else a +:+ "/" +:+ b.

(** The part of the world the code touches: the text files it can read and
    the lines written to standard output so far. *)
Record world : Type := World {
  files : gmap string string;
  stdout : list string
}.

(** A computation that reads and changes the world and returns or raises;
    what was done before an exception stays done. *)
Definition io (A : Type) : Type := world -> res A * world.

#[global] Instance io_ret : MRet io := fun _ a w => (Ok a, w).
#[global] Instance io_bind : MBind io := fun _ _ f m w =>
  match m w with
  | (Ok a, w') => f a w'
  | (Raise e, w') => (Raise e, w')
  end.

Definition lift {A} (r : res A) : io A := fun w => (r, w).

(** [print(line)]. *)
Definition print (line : string) : io unit :=
  fun w => (Ok tt, World (files w) (stdout w ++ [line])).

Section Script.

(** The parser of the [toml] package, which is not part of this code:
    the document a text stands for, if it is valid TOML. *)
Variable toml_loads : string -> option toml.

(** [toml.load(path)]. *)
Definition toml_load (path : string) : io toml :=
  fun w =>
    match files w !! path with
    | None => (Raise (FileNotFoundError path), w)
    | Some text =>
        match toml_loads text with
        | None => (Raise (TomlDecodeError path), w)
        | Some doc => (Ok doc, w)
        end
    end.

Definition generate_crate_list (sourcedir : string)
  : io (bool * list crate * list crate) :=
  cargo_toml ← toml_load (os_path_join sourcedir "Cargo.toml");
  cargo_lock ← toml_load (os_path_join sourcedir "Cargo.lock");
  lift (crate_list_of cargo_toml cargo_lock).

(** The line printed for one crate. *)
Definition crate_line (c : crate) : res string :=
  s ← str_add "    ('" (fst c);
  s ← str_add (s +:+ "', '") (snd c);
  mret (s +:+ "'),").

(** [for name, version in crates: print(...)]. *)
Fixpoint print_crates (cs : list crate) : io unit :=
  match cs with
  | [] => mret tt
  | c :: cs' =>
      line ← lift (crate_line c);
      print line;;
      print_crates cs'
  end.

(** The truth value of a list. *)
Definition truthy {A} (l : list A) : bool :=
  match l with [] => false | _ :: _ => true end.

(** The body under [if __name__ == '__main__'], for the argument vector
    [argv]. *)
Definition main (argv : list string) : io unit :=
  sourcedir ← lift (match argv !! 1%nat with
                    | Some a => Ok a
                    | None => Raise IndexError
                    end);
  r ← generate_crate_list sourcedir;
  let '(app_in_cratesio, crates, _) := r in
  if app_in_cratesio || truthy crates then
    print "crates = [";;
    (if app_in_cratesio then print "    (name, version)," else mret tt);;
    print_crates crates;;
    print "]"
  else mret tt.

End Script.

(** ** Vocabulary of the properties *)

(** Decidable equality of parsed values, to count equal tuples. *)
#[global] Instance toml_eq_dec : EqDecision toml.
Proof.
  refine (fix go (a b : toml) {struct a} : Decision (a = b) :=
    match a, b with
    | TStr x, TStr y => cast_if (decide (x = y))
    | TInt x, TInt y => cast_if (decide (x = y))
    | TBool x, TBool y => cast_if (decide (x = y))
    | TArr xs, TArr ys => cast_if (@list_eq_dec _ go xs ys)
    | TTab m, TTab n => cast_if (@list_eq_dec _ (@prod_eq_dec _ _ _ go) m n)
    | _, _ => right _
    end); abstract congruence.
Defined.

Definition is_table (v : toml) : bool :=
  match v with TTab _ => true | _ => false end.

(** The tuple the loop builds for [dep], when [dep['name']] and
    [dep['version']] both evaluate. *)
Definition crate_of (dep : toml) : option crate :=
  match getitem dep "name", getitem dep "version" with
  | Ok n, Ok v => Some (n, v)
  | _, _ => None
  end.

(** [dep] passes the registry test of the loop. *)
Definition registry_dep (dep : toml) : bool :=
  match from_registry dep with Ok b => b | Raise _ => false end.

(** [dep['name'] == app_name]. *)
Definition named (app_name dep : toml) : bool :=
  match getitem dep "name" with Ok n => py_eq n app_name | Raise _ => false end.

(** [dep] is the application's own entry in the registry. *)
Definition self_dep (app_name dep : toml) : bool :=
  registry_dep dep && named app_name dep.

(** The [source] of [dep] is the registry string.  This is said with the
    string itself and does not go through the test of the loop. *)
Definition registry_sourced (dep : toml) : bool :=
  match getitem dep "source" with
  | Ok (TStr s) =>
      String.eqb s "registry+https://github.com/rust-lang/crates.io-index"
  | _ => false
  end.

(** How often a tuple occurs in a list of tuples. *)
Definition occurrences (c : crate) (l : list crate) : nat :=
  length (List.filter (fun x => bool_decide (x = c)) l).

(** How many entries of [deps] give the tuple [c] and satisfy [p]. *)
Definition entries_giving (c : crate) (p : toml -> bool) (deps : list toml) : nat :=
  length (List.filter (fun d => bool_decide (crate_of d = Some c) && p d) deps).

(** The registry crates, the other crates and the flag a list of entries
    gives rise to. *)
Definition registry_part (app_name : toml) (deps : list toml) : list crate :=
  omap crate_of
    (List.filter (fun d => registry_dep d && negb (named app_name d)) deps).

Definition other_part (deps : list toml) : list crate :=
  omap crate_of (List.filter (fun d => negb (registry_dep d)) deps).

(** ** Sample manifests *)

(** A lock entry with string fields, in the order Cargo writes them. *)
Definition entry (n v : string) (src : option string) : toml :=
  TTab ([("name", TStr n); ("version", TStr v)] ++
        match src with Some s => [("source", TStr s)] | None => [] end).

Definition descriptor (n : string) : toml :=
  TTab [("package", TTab [("name", TStr n)])].

Definition lock_of (deps : list toml) : toml :=
  TTab [("package", TArr deps)].

(** A parser defined on two texts only, and a world whose directory [src]
    holds them. *)
Definition sample_loads (d l : toml) (text : string) : option toml :=
  if String.eqb text "descriptor" then Some d
  else if String.eqb text "lock" then Some l
  else None.

Definition sample_world : world :=
  World (<["src/Cargo.toml" := "descriptor"]> (<["src/Cargo.lock" := "lock"]> ∅)) [].

(** The lock list of the scenario in the specification. *)
Definition sample_deps : list toml :=
  [entry "foo" "1.0" (Some registry_source);
   entry "bar" "2.0" (Some registry_source);
   entry "baz" "0.1" None].

(** A lock list with repeated entries: a registry crate twice, two
    versions of the package itself, and a crate from elsewhere twice. *)
Definition repeated_deps : list toml :=
  [entry "bar" "2.0" (Some registry_source);
   entry "bar" "2.0" (Some registry_source);
   entry "foo" "1.0" (Some registry_source);
   entry "foo" "0.9" (Some registry_source);
   entry "baz" "0.1" None;
   entry "baz" "0.1" (Some "git+https://example.org/baz")].

(** Two versions of the package itself, both from the registry. *)
Definition two_versions : list toml :=
  [entry "foo" "1.0" (Some registry_source);
   entry "foo" "0.9" (Some registry_source)].

(** ** The sources of the crates *)

Definition CRATESIO_SOURCE : string := "https://crates.io/api/v1/crates".

(** [v + s] with a string on the right. *)
Definition add_str (v : toml) (s : string) : res string :=
  match v with
  | TStr t => Ok (t +:+ s)
  | _ => Raise TypeError
  end.

(** The dict the constructor of the easyblock builds for one
    [(crate, version)] tuple of the [crates] parameter. *)
Definition crate_source (c : crate) : res toml :=
  let '(crate, version) := c in
  d ← add_str crate "/";
  d ← str_add d version;
  f ← add_str crate "-";
  f ← str_add f version;
  mret (TTab [("download_filename", TStr (d +:+ "/download"));
              ("filename", TStr (f +:+ ".tar.gz"));
              ("source_urls", TArr [TStr CRATESIO_SOURCE]);
              ("alt_location", TStr "crates.io")]).

(** [for crate, version in self.cfg['crates']: sources.append({...})], from
    the list [sources] the configuration holds; the value is the list
    handed to [self.cfg.update] when no addition raises. *)
Fixpoint populate_sources (sources : list toml) (crates : list crate)
  : res (list toml) :=
  match crates with
  | [] => Ok sources
  | c :: crates' =>
      src ← crate_source c;
      populate_sources (sources ++ [src]) crates'
  end.

(** ** The short version of the Mathematica easyblock *)

(** [s.split(sep)] for a separator of one character. *)
Fixpoint split (sep : ascii) (s : string) : list string :=
  match s with
  | EmptyString => [EmptyString]
  | String a s' =>
      if Ascii.eqb a sep then EmptyString :: split sep s'
      else match split sep s' with
           | part :: parts => String a part :: parts
           | [] => [String a EmptyString]
           end
  end.

(** [sep.join(parts)]. *)
Fixpoint join (sep : string) (parts : list string) : string :=
  match parts with
  | [] => EmptyString
  | [part] => part
  | part :: parts' => part +:+ sep +:+ join sep parts'
  end.

(** ['.'.join(self.version.split('.')[:2])]. *)
Definition shortver (version : string) : string :=
  join "." (take 2 (split "." version)).

(** ** Characters of a text *)

Fixpoint has_char (c : ascii) (s : string) : bool :=
  match s with
  | EmptyString => false
  | String a s' => Ascii.eqb a c || has_char c s'
  end.

Fixpoint count_char (c : ascii) (s : string) : nat :=
  match s with
  | EmptyString => 0
  | String a s' => (if Ascii.eqb a c then 1 else 0) + count_char c s'
  end.

(** ** The helper on Python objects *)

(** Python values as the interpreter holds them: strings, numbers,
    booleans and tuples cannot change and stand for themselves; lists and
    dicts are objects in a store and a value only holds their address, so
    that two values can share one object and a change through one is seen
    through the other. *)
Inductive val : Type :=
  | VStr (s : string)
  | VInt (z : Z)
  | VBool (b : bool)
  | VTuple (a b : val)
  | VRef (l : nat).

Inductive obj : Type :=
  | OList (items : list val)
  | ODict (items : list (string * val)).

(** How a computation over the store ends.  [RaisesOther] stands for an
    exception that is not in [exn]. *)
Inductive outcome (A : Type) : Type :=
  | Returns (a : A)
  | Raises (e : exn)
  | RaisesOther (name : string).
Arguments Returns {A} a.
Arguments Raises {A} e.
Arguments RaisesOther {A} name.

#[global] Instance outcome_ret : MRet outcome := fun _ a => Returns a.
#[global] Instance outcome_bind : MBind outcome := fun _ _ f m =>
  match m with
  | Returns a => f a
  | Raises e => Raises e
  | RaisesOther name => RaisesOther name
  end.

(** [obj[key]] for a string key. *)
Definition o_getitem (h : list obj) (o : val) (key : string) : outcome val :=
  match o with
  | VRef l =>
      match h !! l with
      | Some (ODict kvs) =>
          match assoc key kvs with
          | Some v => Returns v
          | None => Raises (KeyError key)
          end
      | _ => Raises TypeError
      end
  | _ => Raises TypeError
  end.

(** The items of two lists of one length compared in order, up to the
    first pair that differs. *)
Fixpoint all2_by (eq : val -> val -> outcome bool) (xs ys : list val)
  : outcome bool :=
  match xs, ys with
  | x :: xs', y :: ys' =>
      r ← eq x y;
      if (r : bool) then all2_by eq xs' ys' else Returns false
  | _, _ => Returns true
  end.

(** Every key of [ma] looked up in [mb] and the two values compared, up
    to the first key that is absent or whose values differ. *)
Fixpoint sub_by (eq : val -> val -> outcome bool) (mb ma : list (string * val))
  : outcome bool :=
  match ma with
  | [] => Returns true
  | (k, v) :: ma' =>
      match assoc k mb with
      | Some w =>
          r ← eq v w;
          if (r : bool) then sub_by eq mb ma' else Returns false
      | None => Returns false
      end
  end.

(** [a == b], at most [n] comparisons deep; past that the interpreter
    gives up with a [RecursionError].  An object equals itself; lists of
    different lengths and dicts of different sizes differ without a look
    at their items. *)
Fixpoint o_eq (n : nat) (h : list obj) (a b : val) {struct n} : outcome bool :=
  match n with
  | O => RaisesOther "RecursionError"
  | S n' =>
      match a, b with
      | VStr x, VStr y => Returns (String.eqb x y)
      | VInt x, VInt y => Returns (Z.eqb x y)
      | VBool x, VBool y => Returns (Bool.eqb x y)
      | VInt x, VBool y => Returns (Z.eqb x (Z.b2z y))
      | VBool x, VInt y => Returns (Z.eqb (Z.b2z x) y)
      | VTuple a1 a2, VTuple b1 b2 =>
          r ← o_eq n' h a1 b1;
          if (r : bool) then o_eq n' h a2 b2 else Returns false
      | VRef la, VRef lb =>
          if Nat.eqb la lb then Returns true
          else
            match h !! la, h !! lb with
            | Some (OList xs), Some (OList ys) =>
                if Nat.eqb (length xs) (length ys)
                then all2_by (o_eq n' h) xs ys
                else Returns false
            | Some (ODict ma), Some (ODict mb) =>
                if Nat.eqb (length ma) (length mb)
                then sub_by (o_eq n' h) mb ma
                else Returns false
            | _, _ => Returns false
            end
      | _, _ => Returns false
      end
  end.

(** [x in xs] for the items of a list or tuple. *)
Fixpoint o_any (n : nat) (h : list obj) (x : val) (xs : list val) : outcome bool :=
  match xs with
  | [] => Returns false
  | y :: xs' =>
      r ← o_eq n h y x;
      if (r : bool) then Returns true else o_any n h x xs'
  end.

(** [key in obj] for a string key. *)
Definition o_contains (n : nat) (h : list obj) (key : string) (o : val)
  : outcome bool :=
  match o with
  | VRef l =>
      match h !! l with
      | Some (ODict kvs) => Returns (bool_decide (is_Some (assoc key kvs)))
      | Some (OList xs) => o_any n h (VStr key) xs
      | None => Raises TypeError
      end
  | VTuple a b => o_any n h (VStr key) [a; b]
  | VStr s => Returns (bool_decide (is_Some (String.index 0 key s)))
  | VInt _ | VBool _ => Raises TypeError
  end.

(** A computation that reads and changes the store.  It ends as Python
    ends, or gives [None] when the bound that the model puts on the
    passes of a loop is used up. *)
Definition hm (A : Type) : Type := list obj -> option (outcome A) * list obj.

#[global] Instance hm_ret : MRet hm := fun _ a h => (Some (Returns a), h).
#[global] Instance hm_bind : MBind hm := fun _ _ f m h =>
  match m h with
  | (Some (Returns a), h') => f a h'
  | (Some (Raises e), h') => (Some (Raises e), h')
  | (Some (RaisesOther name), h') => (Some (RaisesOther name), h')
  | (None, h') => (None, h')
  end.

Definition h_read {A} (f : list obj -> outcome A) : hm A :=
  fun h => (Some (f h), h).

Definition h_getitem (o : val) (key : string) : hm val :=
  h_read (fun h => o_getitem h o key).

Definition h_eq (n : nat) (a b : val) : hm bool :=
  h_read (fun h => o_eq n h a b).

Definition h_contains (n : nat) (key : string) (o : val) : hm bool :=
  h_read (fun h => o_contains n h key o).

(** [[]]: a new empty list, at an address not in use. *)
Definition h_new_list : hm val :=
  fun h => (Some (Returns (VRef (length h))), h ++ [OList []]).

(** [lst.append(x)]. *)
Definition h_append (lst x : val) : hm unit :=
  fun h =>
    match lst with
    | VRef l =>
        match h !! l with
        | Some (OList xs) => (Some (Returns tt), <[l := OList (xs ++ [x])]> h)
        | _ => (Some (RaisesOther "AttributeError"), h)
        end
    | _ => (Some (RaisesOther "AttributeError"), h)
    end.

(** The test of line 200 on objects. *)
Definition h_from_registry (n : nat) (dep : val) : hm bool :=
  has ← h_contains n "source" dep;
  if (has : bool) then
    src ← h_getitem dep "source";
    h_eq n src (VStr registry_source)
  else mret false.

(** One pass of the loop body on objects; [crates] and [other_crates]
    hold the addresses of the two lists, the flag is passed along. *)
Definition h_loop_body (n : nat) (app_name crates other_crates : val)
    (dep : val) (flag : bool) : hm bool :=
  name ← h_getitem dep "name";
  version ← h_getitem dep "version";
  reg ← h_from_registry n dep;
  if (reg : bool) then
    same ← h_eq n name app_name;
    if (same : bool) then mret true
    else h_append crates (VTuple name version);; mret flag
  else h_append other_crates (VTuple name version);; mret flag.

(** [for x in lst] over a list object: the list is read again at every
    step, at the next index, until the index is past its end. *)
Fixpoint h_for (fuel : nat) (body : val -> bool -> hm bool)
    (l : nat) (i : nat) (flag : bool) : hm bool :=
  match fuel with
  | O => fun h => (None, h)
  | S fuel' => fun h =>
      match h !! l with
      | Some (OList xs) =>
          match xs !! i with
          | Some x => (flag' ← body x flag; h_for fuel' body l (S i) flag') h
          | None => (Some (Returns flag), h)
          end
      | _ => (Some (Returns flag), h)
      end
  end.

(** [for x in ...] over items fixed when the loop starts. *)
Fixpoint h_fold (body : val -> bool -> hm bool) (items : list val)
    (flag : bool) : hm bool :=
  match items with
  | [] => mret flag
  | x :: items' => flag' ← body x flag; h_fold body items' flag'
  end.

(** [for x in obj]: a list by index, the keys of a dict, the characters
    of a string, the two items of a tuple. *)
Definition h_iter (fuel : nat) (body : val -> bool -> hm bool)
    (o : val) (flag : bool) : hm bool :=
  fun h =>
    match o with
    | VRef l =>
        match h !! l with
        | Some (OList _) => h_for fuel body l 0 flag h
        | Some (ODict kvs) =>
            h_fold body (map (fun kv => VStr (fst kv)) kvs) flag h
        | None => (Some (Raises TypeError), h)
        end
    | VStr s => h_fold body (map VStr (chars s)) flag h
    | VTuple a b => h_fold body [a; b] flag h
    | VInt _ | VBool _ => (Some (Raises TypeError), h)
    end.

(** Lines 191 to 207 on two parsed documents held in the store: the
    result is the flag and the addresses of the two new lists.  [fuel]
    bounds the passes of the loop in the model and [limit] is the depth
    of comparison the interpreter allows. *)
Definition crate_list_heap (fuel limit : nat) (cargo_toml cargo_lock : val)
  : hm (bool * val * val) :=
  package ← h_getitem cargo_toml "package";
  app_name ← h_getitem package "name";
  deps ← h_getitem cargo_lock "package";
  crates ← h_new_list;
  other_crates ← h_new_list;
  flag ← h_iter fuel (h_loop_body limit app_name crates other_crates) deps false;
  mret (flag, crates, other_crates).

(** What the parser leaves in the store for a document: every array a
    new list object, every table a new dict object. *)
Fixpoint store (t : toml) (h : list obj) : val * list obj :=
  match t with
  | TStr s => (VStr s, h)
  | TInt z => (VInt z, h)
  | TBool b => (VBool b, h)
  | TArr ts =>
      let '(vs, h') :=
        (fix go (ts : list toml) (h : list obj) : list val * list obj :=
           match ts with
           | [] => ([], h)
           | t :: ts' =>
               let '(v, h1) := store t h in
               let '(vs, h2) := go ts' h1 in
               (v :: vs, h2)
           end) ts h in
      (VRef (length h'), h' ++ [OList vs])
  | TTab kts =>
      let '(kvs, h') :=
        (fix go (kts : list (string * toml)) (h : list obj)
           : list (string * val) * list obj :=
           match kts with
           | [] => ([], h)
           | (k, t) :: kts' =>
               let '(v, h1) := store t h in
               let '(kvs, h2) := go kts' h1 in
               ((k, v) :: kvs, h2)
           end) kts h in
      (VRef (length h'), h' ++ [ODict kvs])
  end.

(** ** Vocabulary for the store *)

(** The addresses in [v] are below [n]. *)
Fixpoint val_ok (n : nat) (v : val) : Prop :=
  match v with
  | VRef l => l < n
  | VTuple a b => val_ok n a /\ val_ok n b
  | _ => True
  end.

Definition obj_ok (n : nat) (o : obj) : Prop :=
  match o with
  | OList xs => Forall (val_ok n) xs
  | ODict kvs => Forall (fun kv => val_ok n (snd kv)) kvs
  end.

(** Every address held in the store is the address of an object of the
    store. *)
Definition closed (h : list obj) : Prop := Forall (obj_ok (length h)) h.

(** The items of the list at [v]. *)
Definition list_at (h : list obj) (v : val) : option (list val) :=
  match v with
  | VRef l => match h !! l with Some (OList xs) => Some xs | _ => None end
  | _ => None
  end.

(** What iteration over [o] runs over. *)
Definition o_items (h : list obj) (o : val) : outcome (list val) :=
  match o with
  | VRef l =>
      match h !! l with
      | Some (OList xs) => Returns xs
      | Some (ODict kvs) => Returns (map (fun kv => VStr (fst kv)) kvs)
      | None => Raises TypeError
      end
  | VStr s => Returns (map VStr (chars s))
  | VTuple a b => Returns [a; b]
  | VInt _ | VBool _ => Raises TypeError
  end.

(** Two results are the same to Python: the same exception, or the same
    flag and lists with the same items. *)
Definition same_result (h : list obj) (r1 r2 : outcome (bool * val * val))
  : Prop :=
  match r1, r2 with
  | Returns (s1, c1, o1), Returns (s2, c2, o2) =>
      s1 = s2 /\
      (exists xs, list_at h c1 = Some xs /\ list_at h c2 = Some xs) /\
      (exists ys, list_at h o1 = Some ys /\ list_at h o2 = Some ys)
  | Raises e1, Raises e2 => e1 = e2
  | RaisesOther n1, RaisesOther n2 => n1 = n2
  | _, _ => False
  end.

(** The store [hx] holds at every address below [n] what [h] holds. *)
Definition agree (n : nat) (h hx : list obj) : Prop :=
  forall l, l < n -> hx !! l = h !! l.

(** What one pass of the loop does with an entry, read off the store
    without changing it: nothing but the flag for the package's own
    registry entry, a tuple for the one list or for the other. *)
Inductive verdict : Type :=
  | Own
  | Registry (t : val)
  | Elsewhere (t : val).

Definition o_classify (n : nat) (h : list obj) (app_name dep : val)
  : outcome verdict :=
  name ← o_getitem h dep "name";
  version ← o_getitem h dep "version";
  has ← o_contains n h "source" dep;
  reg ← (if (has : bool) then
           src ← o_getitem h dep "source";
           o_eq n h src (VStr registry_source)
         else Returns false);
  if (reg : bool) then
    same ← o_eq n h name app_name;
    if (same : bool) then Returns Own
    else Returns (Registry (VTuple name version))
  else Returns (Elsewhere (VTuple name version)).

(** The end of the loop over [items], with the tuples it appends to the
    one list and to the other, read off the store [h]. *)
Fixpoint o_loop (n : nat) (h : list obj) (app_name : val) (items : list val)
    (flag : bool) : outcome bool * list val * list val :=
  match items with
  | [] => (Returns flag, [], [])
  | dep :: items' =>
      match o_classify n h app_name dep with
      | Returns Own => o_loop n h app_name items' true
      | Returns (Registry t) =>
          let '(r, cs, os) := o_loop n h app_name items' flag in
          (r, t :: cs, os)
      | Returns (Elsewhere t) =>
          let '(r, cs, os) := o_loop n h app_name items' flag in
          (r, cs, t :: os)
      | Raises e => (Raises e, [], [])
      | RaisesOther name => (RaisesOther name, [], [])
      end
  end.

(** The two sample manifests as the parser leaves them in an empty
    store: the descriptor at address 1 and the lock file at address 6. *)
Definition sample_store : list obj :=
  Eval vm_compute in
    (let '(_, h) := store (descriptor "foo") [] in
     snd (store (lock_of sample_deps) h)).

(** ** Basic facts about the Python operations *)

Ltac res_simpl :=
  repeat (unfold mbind, mret, res_bind, res_ret in *; cbn in * ).

Lemma py_eq_str (v : toml) (s : string) :
  py_eq v (TStr s) = true <-> v = TStr s.
Proof.
  destruct v; cbn; try (split; [discriminate | discriminate]).
  rewrite String.eqb_eq. split; congruence.
Qed.

Lemma from_registry_table (t : list (string * toml)) :
  from_registry (TTab t) =
  Ok (match assoc "source" t with
      | Some s => py_eq s (TStr registry_source)
      | None => false
      end).
Proof.
  unfold from_registry. res_simpl.
  destruct (assoc "source" t) eqn:E.
  - rewrite bool_decide_eq_true_2 by eauto. reflexivity.
  - rewrite bool_decide_eq_false_2; [reflexivity|].
    intros [x Hx]. discriminate.
Qed.

(** The registry test succeeds exactly on an entry whose [source] is the
    registry tag. *)
Lemma registry_dep_iff (dep : toml) :
  registry_dep dep = true <-> getitem dep "source" = Ok (TStr registry_source).
Proof.
  unfold registry_dep. destruct dep as [s|z|b|l|t].
  - unfold from_registry. res_simpl.
    destruct (bool_decide _); cbn; split; discriminate.
  - cbn. split; discriminate.
  - cbn. split; discriminate.
  - unfold from_registry. res_simpl.
    destruct (existsb _ _); cbn; split; discriminate.
  - rewrite from_registry_table. cbn.
    destruct (assoc "source" t) as [s|]; [|split; discriminate].
    rewrite py_eq_str. split; congruence.
Qed.

Lemma registry_dep_false (dep : toml) :
  registry_dep dep = false <-> getitem dep "source" <> Ok (TStr registry_source).
Proof.
  rewrite <- registry_dep_iff. destruct (registry_dep dep); split; congruence.
Qed.

(** The test of the loop accepts exactly the entries whose [source] is the
    registry string. *)
Lemma registry_dep_sourced (dep : toml) :
  registry_dep dep = registry_sourced dep.
Proof.
  unfold registry_sourced.
  destruct (registry_dep dep) eqn:Hr.
  - apply registry_dep_iff in Hr. rewrite Hr. reflexivity.
  - apply registry_dep_false in Hr.
    destruct (getitem dep "source") as [[s| | | |]|]; try reflexivity.
    destruct (String.eqb_spec s
                "registry+https://github.com/rust-lang/crates.io-index")
      as [->|]; [|reflexivity].
    now destruct Hr.
Qed.

Lemma self_dep_sourced (app_name dep : toml) :
  self_dep app_name dep = registry_sourced dep && named app_name dep.
Proof. unfold self_dep. now rewrite registry_dep_sourced. Qed.

Lemma from_registry_crate (dep : toml) (c : crate) :
  crate_of dep = Some c -> from_registry dep = Ok (registry_dep dep).
Proof.
  unfold crate_of, registry_dep. destruct dep; cbn [getitem]; try discriminate.
  intros _. now rewrite from_registry_table.
Qed.

Lemma crate_of_some (dep : toml) (n v : toml) :
  crate_of dep = Some (n, v) <->
  getitem dep "name" = Ok n /\ getitem dep "version" = Ok v.
Proof.
  unfold crate_of.
  destruct (getitem dep "name"), (getitem dep "version"); split;
    try discriminate; try (intros [? ?]; discriminate); intuition congruence.
Qed.

Lemma crate_of_named (app_name dep n v : toml) :
  crate_of dep = Some (n, v) -> named app_name dep = py_eq n app_name.
Proof.
  intros H. apply crate_of_some in H as [Hn _]. unfold named. now rewrite Hn.
Qed.

(** ** The loop *)

(** What one pass does to the three variables on an entry that has a name
    and a version. *)
Lemma loop_body_ok (app_name : toml) (st : acc) (dep n v : toml) :
  crate_of dep = Some (n, v) ->
  loop_body app_name st dep =
  Ok (if registry_dep dep then
        if py_eq n app_name
        then Acc true (crates st) (other_crates st)
        else Acc (app_in_cratesio st) (crates st ++ [(n, v)]) (other_crates st)
      else Acc (app_in_cratesio st) (crates st) (other_crates st ++ [(n, v)])).
Proof.
  intros H. pose proof (from_registry_crate _ _ H) as Hr.
  apply crate_of_some in H as [Hn Hv].
  unfold loop_body. rewrite Hn, Hv, Hr. res_simpl.
  destruct (registry_dep dep); [destruct (py_eq n app_name)|]; reflexivity.
Qed.

(** A pass over an entry without a name or a version raises, and on a
    table what it raises is the [KeyError] of the first absent key. *)
Lemma loop_body_raise (app_name : toml) (st : acc) (dep : toml) :
  crate_of dep = None ->
  exists e, loop_body app_name st dep = Raise e /\
    (is_table dep = true -> e = KeyError "name" \/ e = KeyError "version").
Proof.
  unfold crate_of, loop_body. destruct dep as [s|z|b|l|t]; cbn;
    try (intros _; eexists; split; [reflexivity | discriminate]).
  destruct (assoc "name" t); cbn.
  - destruct (assoc "version" t); cbn; [discriminate|].
    intros _. eexists; split; [reflexivity | auto].
  - intros _. eexists; split; [reflexivity | auto].
Qed.

Lemma loop_app (app_name : toml) (l1 l2 : list toml) (st : acc) :
  loop app_name st (l1 ++ l2) =
  (st' ← loop app_name st l1; loop app_name st' l2).
Proof.
  revert st. induction l1 as [|d l1 IH]; intros st; [reflexivity|].
  cbn. res_simpl. destruct (loop_body app_name st d); [apply IH | reflexivity].
Qed.

(** On entries that all have a name and a version the loop returns, and
    it extends the three variables as follows. *)
Lemma loop_ok (app_name : toml) (deps : list toml) (st : acc) :
  Forall (fun d => is_Some (crate_of d)) deps ->
  loop app_name st deps =
  Ok (Acc (app_in_cratesio st || existsb (self_dep app_name) deps)
          (crates st ++ registry_part app_name deps)
          (other_crates st ++ other_part deps)).
Proof.
  unfold registry_part, other_part.
  intros H. revert st. induction H as [|d deps [[n v] Hd] _ IH]; intros st.
  - cbn. rewrite orb_false_r, !app_nil_r. now destruct st.
  - cbn [loop]. rewrite (loop_body_ok _ _ _ _ _ Hd). res_simpl.
    rewrite IH. unfold self_dep at 2. rewrite (crate_of_named _ _ _ _ Hd).
    destruct (registry_dep d); [destruct (py_eq n app_name)|]; cbn;
      rewrite ?Hd; cbn; rewrite <- ?app_assoc; cbn;
      rewrite ?orb_true_r; reflexivity.
Qed.

(** The loop returns only on entries that all have a name and a version. *)
Lemma loop_ok_inv (app_name : toml) (deps : list toml) (st st' : acc) :
  loop app_name st deps = Ok st' ->
  Forall (fun d => is_Some (crate_of d)) deps.
Proof.
  revert st. induction deps as [|d deps IH]; intros st H; [constructor|].
  cbn in H. destruct (crate_of d) as [c|] eqn:Hd.
  - constructor; [eauto|]. destruct c as [n v].
    rewrite (loop_body_ok _ _ _ _ _ Hd) in H. res_simpl. eauto.
  - destruct (loop_body_raise app_name st d Hd) as (e & He & _).
    rewrite He in H. discriminate.
Qed.

(** ** Counting *)

Lemma filter_ok (f : toml -> bool) (deps : list toml) :
  Forall (fun d => is_Some (crate_of d)) deps ->
  Forall (fun d => is_Some (crate_of d)) (List.filter f deps).
Proof.
  induction 1 as [|d deps Hd _ IH]; cbn; [constructor|].
  destruct (f d); [constructor|]; assumption.
Qed.

Lemma length_omap_crate (deps : list toml) :
  Forall (fun d => is_Some (crate_of d)) deps ->
  length (omap crate_of deps) = length deps.
Proof.
  induction 1 as [|d deps [c Hd] _ IH]; cbn; [reflexivity|].
  rewrite Hd. cbn. now rewrite IH.
Qed.

Lemma three_way_count (app_name : toml) (deps : list toml) :
  length (List.filter (fun d => registry_dep d && negb (named app_name d)) deps)
  + length (List.filter (fun d => negb (registry_dep d)) deps)
  + length (List.filter (self_dep app_name) deps)
  = length deps.
Proof.
  unfold self_dep. induction deps as [|d deps IH]; cbn; [reflexivity|].
  destruct (registry_dep d), (named app_name d); cbn; lia.
Qed.

Lemma existsb_filter {A} (f : A -> bool) (l : list A) :
  existsb f l = negb (Nat.eqb (length (List.filter f l)) 0).
Proof.
  induction l as [|x l IH]; cbn; [reflexivity|].
  destruct (f x); cbn; [reflexivity | apply IH].
Qed.

Lemma occurrences_omap (c : crate) (p : toml -> bool) (deps : list toml) :
  Forall (fun d => is_Some (crate_of d)) deps ->
  occurrences c (omap crate_of (List.filter p deps)) = entries_giving c p deps.
Proof.
  unfold occurrences, entries_giving.
  induction 1 as [|d deps [c' Hd] _ IH]; cbn; [reflexivity|].
  rewrite Hd. destruct (p d); cbn.
  - rewrite Hd. cbn. rewrite andb_true_r.
    rewrite (bool_decide_ext (Some c' = Some c) (c' = c)) by (split; congruence).
    destruct (bool_decide (c' = c)); cbn; now rewrite IH.
  - rewrite andb_false_r. apply IH.
Qed.

Lemma sublist_filter_bool {A} (f : A -> bool) (l : list A) :
  sublist (List.filter f l) l.
Proof.
  induction l as [|x l IH]; cbn; [constructor|].
  destruct (f x); [apply sublist_skip | apply sublist_cons]; exact IH.
Qed.

Lemma omap_crate_Forall2 (deps : list toml) :
  Forall (fun d => is_Some (crate_of d)) deps ->
  Forall2 (fun d c => crate_of d = Some c) deps (omap crate_of deps).
Proof.
  induction 1 as [|d deps [c Hd] _ IH]; cbn; [constructor|].
  rewrite Hd. cbn. now constructor.
Qed.

Lemma registry_part_names (app_name : toml) (deps : list toml) :
  Forall (fun c => py_eq (fst c) app_name = false) (registry_part app_name deps).
Proof.
  unfold registry_part. induction deps as [|d deps IH]; cbn; [constructor|].
  destruct (registry_dep d); cbn; [|exact IH].
  destruct (named app_name d) eqn:Hn; cbn; [exact IH|].
  destruct (crate_of d) as [[n v]|] eqn:Hd; cbn; [|exact IH].
  constructor; [|exact IH]. cbn. now rewrite <- (crate_of_named _ _ _ _ Hd).
Qed.

Lemma registry_part_app (app_name : toml) (l1 l2 : list toml) :
  registry_part app_name (l1 ++ l2) =
  registry_part app_name l1 ++ registry_part app_name l2.
Proof. unfold registry_part. now rewrite List.filter_app, omap_app. Qed.

Lemma other_part_app (l1 l2 : list toml) :
  other_part (l1 ++ l2) = other_part l1 ++ other_part l2.
Proof. unfold other_part. now rewrite List.filter_app, omap_app. Qed.

(** ** The helper as a whole *)

(** The helper leaves the world as it found it. *)
Lemma generate_crate_list_world (toml_loads : string -> option toml)
    (sourcedir : string) (w : world) :
  snd (generate_crate_list toml_loads sourcedir w) = w.
Proof.
  unfold generate_crate_list, toml_load, lift. unfold mbind, io_bind.
  destruct (files w !! os_path_join sourcedir "Cargo.toml") as [t1|]; [|reflexivity].
  destruct (toml_loads t1); [|reflexivity].
  destruct (files w !! os_path_join sourcedir "Cargo.lock") as [t2|]; [|reflexivity].
  destruct (toml_loads t2); reflexivity.
Qed.

Section Loaded.

Variable toml_loads : string -> option toml.
Variables (w : world) (sourcedir : string).
Variables (cargo_toml cargo_lock : toml).

(** Both manifests are there and parse. *)
Hypothesis load_toml :
  toml_load toml_loads (os_path_join sourcedir "Cargo.toml") w = (Ok cargo_toml, w).
Hypothesis load_lock :
  toml_load toml_loads (os_path_join sourcedir "Cargo.lock") w = (Ok cargo_lock, w).

Lemma generate_crate_list_loaded :
  generate_crate_list toml_loads sourcedir w =
  (crate_list_of cargo_toml cargo_lock, w).
Proof.
  unfold generate_crate_list. unfold mbind, io_bind.
  now rewrite load_toml, load_lock.
Qed.

Variables (package app_name : toml) (deps : list toml).

(** The descriptor names the package and the lock file lists [deps]. *)
Hypothesis toml_package : getitem cargo_toml "package" = Ok package.
Hypothesis package_name : getitem package "name" = Ok app_name.
Hypothesis lock_package : getitem cargo_lock "package" = Ok (TArr deps).

Lemma generate_crate_list_loop :
  generate_crate_list toml_loads sourcedir w =
  (st ← loop app_name acc0 deps;
   mret (app_in_cratesio st, crates st, other_crates st), w).
Proof.
  rewrite generate_crate_list_loaded. unfold crate_list_of.
  rewrite toml_package. res_simpl. rewrite package_name. res_simpl.
  rewrite lock_package. reflexivity.
Qed.

(** On a lock list whose entries all have a name and a version the helper
    returns, with the flag and the two lists read off the entries. *)
Lemma generate_crate_list_ok :
  Forall (fun d => is_Some (crate_of d)) deps ->
  generate_crate_list toml_loads sourcedir w =
  (Ok (existsb (self_dep app_name) deps,
       registry_part app_name deps, other_part deps), w).
Proof.
  intros H. rewrite generate_crate_list_loop, (loop_ok _ _ _ H). reflexivity.
Qed.

(** Around one entry: the lists are those of the entries before it, what
    the entry itself adds, and those of the entries after it. *)
Lemma generate_crate_list_split (pre post : list toml) (dep n v : toml) :
  deps = pre ++ dep :: post ->
  Forall (fun d => is_Some (crate_of d)) deps ->
  getitem dep "name" = Ok n ->
  getitem dep "version" = Ok v ->
  exists st1 st2,
    loop app_name acc0 pre = Ok st1 /\
    loop app_name acc0 post = Ok st2 /\
    generate_crate_list toml_loads sourcedir w =
    (Ok (app_in_cratesio st1 || (registry_dep dep && py_eq n app_name)
           || app_in_cratesio st2,
         crates st1
           ++ (if registry_dep dep && negb (py_eq n app_name)
               then [(n, v)] else [])
           ++ crates st2,
         other_crates st1
           ++ (if registry_dep dep then [] else [(n, v)])
           ++ other_crates st2), w).
Proof.
  intros Hsplit Hok Hn Hv.
  assert (Hd : crate_of dep = Some (n, v)) by now apply crate_of_some.
  rewrite (generate_crate_list_ok Hok). rewrite Hsplit in Hok |- *.
  apply Forall_app in Hok as [Hpre Hpost].
  apply Forall_cons in Hpost as [_ Hpost].
  eexists _, _. rewrite (loop_ok _ _ _ Hpre), (loop_ok _ _ _ Hpost).
  split; [reflexivity|]. split; [reflexivity|].
  change (dep :: post) with ([dep] ++ post).
  rewrite !existsb_app, !registry_part_app, !other_part_app.
  assert (Hs : existsb (self_dep app_name) [dep]
               = registry_dep dep && py_eq n app_name).
  { cbn. unfold self_dep. rewrite (crate_of_named _ _ _ _ Hd).
    now rewrite orb_false_r. }
  assert (Hr : registry_part app_name [dep]
               = if registry_dep dep && negb (py_eq n app_name)
                 then [(n, v)] else []).
  { unfold registry_part. cbn. rewrite (crate_of_named _ _ _ _ Hd).
    destruct (registry_dep dep && negb (py_eq n app_name)); cbn;
      now rewrite ?Hd. }
  assert (Ho : other_part [dep] = if registry_dep dep then [] else [(n, v)]).
  { unfold other_part. cbn. destruct (registry_dep dep); cbn; now rewrite ?Hd. }
  rewrite Hs, Hr, Ho. cbn [acc0 app_in_cratesio crates other_crates app orb].
  now rewrite orb_assoc.
Qed.

(** ** The properties of the helper, on loaded manifests *)

(** C1 (as amended): on a descriptor that names the package and a lock
    list whose entries all have a name and a version, the helper returns,
    and the lengths of the two lists plus the number of lock entries whose
    source is the registry string and whose name equals the package name
    add up to the number of lock entries.  The flag counts for one entry
    in that sum exactly when there is at most one such entry. *)
Theorem count_partition :
  Forall (fun d => is_Some (crate_of d)) deps ->
  exists s reg oth,
    generate_crate_list toml_loads sourcedir w = (Ok (s, reg, oth), w) /\
    length reg + length oth
      + length (List.filter
                  (fun d => registry_sourced d && named app_name d) deps)
      = length deps /\
    (length reg + length oth + (if s then 1 else 0) = length deps <->
     length (List.filter
               (fun d => registry_sourced d && named app_name d) deps) <= 1).
Proof.
  intros Hok. eexists _, _, _. split; [apply (generate_crate_list_ok Hok)|].
  rewrite <- (List.filter_ext _ _ (self_dep_sourced app_name)).
  unfold registry_part, other_part.
  rewrite !length_omap_crate by now apply filter_ok.
  pose proof (three_way_count app_name deps) as H3.
  rewrite existsb_filter.
  split; [exact H3|].
  destruct (length (List.filter (self_dep app_name) deps)) as [|[|k]]; cbn; lia.
Qed.

(** C2: a lock entry whose name equals the package name and whose source
    is the registry tag adds nothing to either list: the registry crates
    are those of the entries before it followed by those of the entries
    after it, and so are the other crates; no tuple of the registry crates
    carries the package name; and the flag is true. *)
Theorem self_exclusion (pre post : list toml) (dep n : toml) :
  deps = pre ++ dep :: post ->
  Forall (fun d => is_Some (crate_of d)) deps ->
  getitem dep "name" = Ok n ->
  py_eq n app_name = true ->
  getitem dep "source" = Ok (TStr registry_source) ->
  exists st1 st2 reg oth,
    loop app_name acc0 pre = Ok st1 /\
    loop app_name acc0 post = Ok st2 /\
    generate_crate_list toml_loads sourcedir w = (Ok (true, reg, oth), w) /\
    reg = crates st1 ++ crates st2 /\
    oth = other_crates st1 ++ other_crates st2 /\
    Forall (fun c => py_eq (fst c) app_name = false) reg.
Proof.
  intros Hsplit Hok Hn Heq Hsrc.
  assert (Hv : exists v, getitem dep "version" = Ok v).
  { rewrite Hsplit in Hok. apply Forall_app in Hok as [_ Hd].
    apply Forall_cons in Hd as [[[n' v] Hd] _].
    apply crate_of_some in Hd as [_ Hd]. eauto. }
  destruct Hv as [v Hv].
  destruct (generate_crate_list_split pre post dep n v Hsplit Hok Hn Hv)
    as (st1 & st2 & H1 & H2 & Hg).
  apply registry_dep_iff in Hsrc. rewrite Hsrc, Heq in Hg. cbn in Hg.
  rewrite orb_true_r in Hg. cbn in Hg.
  exists st1, st2. eexists _, _. repeat split; try eassumption.
  pose proof (registry_part_names app_name deps) as Hnames.
  rewrite (generate_crate_list_ok Hok) in Hg.
  injection Hg as _ <- _. exact Hnames.
Qed.

(** C3: for a lock entry whose name differs from the package name, the
    helper puts its tuple into the registry crates, at the entry's place,
    if and only if the entry's [source] is the string
    [registry+https://github.com/rust-lang/crates.io-index]; with any
    other [source], or none, the tuple goes to the other crates. *)
Theorem registry_routing (pre post : list toml) (dep n v : toml) :
  deps = pre ++ dep :: post ->
  Forall (fun d => is_Some (crate_of d)) deps ->
  getitem dep "name" = Ok n ->
  getitem dep "version" = Ok v ->
  py_eq n app_name = false ->
  exists st1 st2 s reg oth,
    loop app_name acc0 pre = Ok st1 /\
    loop app_name acc0 post = Ok st2 /\
    generate_crate_list toml_loads sourcedir w = (Ok (s, reg, oth), w) /\
    (reg = crates st1 ++ (n, v) :: crates st2 <->
     getitem dep "source" =
       Ok (TStr "registry+https://github.com/rust-lang/crates.io-index")) /\
    (getitem dep "source" =
       Ok (TStr "registry+https://github.com/rust-lang/crates.io-index") ->
     oth = other_crates st1 ++ other_crates st2) /\
    (getitem dep "source" <>
       Ok (TStr "registry+https://github.com/rust-lang/crates.io-index") ->
     reg = crates st1 ++ crates st2 /\
     oth = other_crates st1 ++ (n, v) :: other_crates st2).
Proof.
  intros Hsplit Hok Hn Hv Hne.
  destruct (generate_crate_list_split pre post dep n v Hsplit Hok Hn Hv)
    as (st1 & st2 & H1 & H2 & Hg).
  rewrite Hne in Hg. cbn [negb] in Hg. rewrite andb_true_r in Hg.
  change "registry+https://github.com/rust-lang/crates.io-index"
    with registry_source.
  exists st1, st2. eexists _, _, _.
  split; [exact H1|]. split; [exact H2|]. split; [exact Hg|].
  destruct (registry_dep dep) eqn:Hr.
  - apply registry_dep_iff in Hr. cbn. repeat split; auto; congruence.
  - apply registry_dep_false in Hr. cbn. repeat split; auto; try congruence.
    intros Habs. apply (f_equal length) in Habs.
    rewrite !length_app in Habs. cbn in Habs. lia.
Qed.

(** C4: each of the two lists follows the order of the lock list: the
    registry crates are the tuples, in order, of the entries that pass the
    registry test and do not carry the package name, the other crates
    those of the entries that fail the registry test, and both selections
    are subsequences of the lock list. *)
Theorem order_preserved :
  Forall (fun d => is_Some (crate_of d)) deps ->
  exists s reg oth regs oths,
    generate_crate_list toml_loads sourcedir w = (Ok (s, reg, oth), w) /\
    regs = List.filter (fun d => registry_dep d && negb (named app_name d)) deps /\
    oths = List.filter (fun d => negb (registry_dep d)) deps /\
    sublist regs deps /\
    sublist oths deps /\
    Forall2 (fun d c => crate_of d = Some c) regs reg /\
    Forall2 (fun d c => crate_of d = Some c) oths oth.
Proof.
  intros Hok. eexists _, _, _, _, _.
  split; [apply (generate_crate_list_ok Hok)|].
  split; [reflexivity|]. split; [reflexivity|].
  split; [apply sublist_filter_bool|]. split; [apply sublist_filter_bool|].
  split; apply omap_crate_Forall2, filter_ok, Hok.
Qed.

(** C9: a lock entry whose name equals the package name but whose source
    is absent or is not the registry tag is kept: its tuple goes to the
    other crates, at the entry's place, and the flag is what the entries
    before and after it make it. *)
Theorem own_name_other_source (pre post : list toml) (dep n v : toml) :
  deps = pre ++ dep :: post ->
  Forall (fun d => is_Some (crate_of d)) deps ->
  getitem dep "name" = Ok n ->
  getitem dep "version" = Ok v ->
  py_eq n app_name = true ->
  getitem dep "source" <> Ok (TStr registry_source) ->
  exists st1 st2,
    loop app_name acc0 pre = Ok st1 /\
    loop app_name acc0 post = Ok st2 /\
    generate_crate_list toml_loads sourcedir w =
    (Ok (app_in_cratesio st1 || app_in_cratesio st2,
         crates st1 ++ crates st2,
         other_crates st1 ++ (n, v) :: other_crates st2), w) /\
    (pre = [] -> post = [] ->
     generate_crate_list toml_loads sourcedir w = (Ok (false, [], [(n, v)]), w)).
Proof.
  intros Hsplit Hok Hn Hv Heq Hsrc.
  destruct (generate_crate_list_split pre post dep n v Hsplit Hok Hn Hv)
    as (st1 & st2 & H1 & H2 & Hg).
  apply registry_dep_false in Hsrc. rewrite Hsrc in Hg. cbn in Hg.
  rewrite orb_false_r in Hg.
  exists st1, st2. repeat split; try assumption.
  intros -> ->. cbn in H1, H2. injection H1 as <-. injection H2 as <-.
  exact Hg.
Qed.

(** C10: nothing is deduplicated.  Every tuple occurs in the registry
    crates as often as there are lock entries of another name, with the
    registry string as source, that give it, and in the other crates as
    often as there are entries with another source or none that give it.
    However many entries with the registry string as source carry the
    package name, none of them is in either list, and the flag only says
    whether there is one. *)
Theorem no_deduplication :
  Forall (fun d => is_Some (crate_of d)) deps ->
  exists s reg oth,
    generate_crate_list toml_loads sourcedir w = (Ok (s, reg, oth), w) /\
    (forall c, occurrences c reg =
       entries_giving c
         (fun d => registry_sourced d && negb (named app_name d)) deps) /\
    (forall c, occurrences c oth =
       entries_giving c (fun d => negb (registry_sourced d)) deps) /\
    (s = true <->
     1 <= length (List.filter
                    (fun d => registry_sourced d && named app_name d) deps)) /\
    length reg + length oth
      = length deps
        - length (List.filter
                    (fun d => registry_sourced d && named app_name d) deps).
Proof.
  intros Hok. eexists _, _, _. split; [apply (generate_crate_list_ok Hok)|].
  rewrite <- (List.filter_ext _ _ (self_dep_sourced app_name)).
  split; [|split; [|split]].
  - intros c. unfold registry_part. rewrite occurrences_omap by exact Hok.
    unfold entries_giving. f_equal. apply List.filter_ext.
    intros d. now rewrite registry_dep_sourced.
  - intros c. unfold other_part. rewrite occurrences_omap by exact Hok.
    unfold entries_giving. f_equal. apply List.filter_ext.
    intros d. now rewrite registry_dep_sourced.
  - rewrite existsb_filter.
    destruct (length (List.filter (self_dep app_name) deps)); cbn;
      split; (congruence || lia).
  - unfold registry_part, other_part.
    rewrite !length_omap_crate by now apply filter_ok.
    pose proof (three_way_count app_name deps). lia.
Qed.

End Loaded.

(** ** Missing keys *)

Lemma absent_key_no_crate (d : toml) :
  getitem d "name" = Raise (KeyError "name") \/
  getitem d "version" = Raise (KeyError "version") ->
  crate_of d = None.
Proof.
  unfold crate_of. intros [H|H]; rewrite H; [reflexivity|].
  now destruct (getitem d "name").
Qed.

(** Over tables the loop stops with a [KeyError] as soon as an entry has
    no name or no version. *)
Lemma loop_raise_key (app_name : toml) (deps : list toml) (st : acc) :
  Forall (fun d => is_table d = true) deps ->
  Exists (fun d => crate_of d = None) deps ->
  exists k, (k = "name" \/ k = "version") /\
            loop app_name st deps = Raise (KeyError k).
Proof.
  intros Htab. revert st.
  induction Htab as [|d deps Hd _ IH]; intros st Hex; [inversion Hex|].
  cbn [loop]. destruct (crate_of d) as [[n v]|] eqn:Hc.
  - rewrite (loop_body_ok _ _ _ _ _ Hc). res_simpl. apply IH.
    inversion Hex; subst; [congruence | assumption].
  - destruct (loop_body_raise app_name st d Hc) as (e & He & Hk).
    rewrite He. res_simpl. destruct (Hk Hd) as [-> | ->]; eauto.
Qed.

(** C7: with both manifests loaded, the helper ends in a [KeyError] and
    returns no flag and no list when the descriptor has no [package], when
    its [package] has no [name], or when the lock list, made of tables,
    has an entry without [name] or without [version]; nothing was written
    by then. *)
Theorem missing_key_raises (toml_loads : string -> option toml)
    (w : world) (sourcedir : string) (cargo_toml cargo_lock : toml) :
  toml_load toml_loads (os_path_join sourcedir "Cargo.toml") w = (Ok cargo_toml, w) ->
  toml_load toml_loads (os_path_join sourcedir "Cargo.lock") w = (Ok cargo_lock, w) ->
  (getitem cargo_toml "package" = Raise (KeyError "package") ->
   generate_crate_list toml_loads sourcedir w = (Raise (KeyError "package"), w)) /\
  (forall package,
     getitem cargo_toml "package" = Ok package ->
     getitem package "name" = Raise (KeyError "name") ->
     generate_crate_list toml_loads sourcedir w = (Raise (KeyError "name"), w)) /\
  (forall package app_name deps,
     getitem cargo_toml "package" = Ok package ->
     getitem package "name" = Ok app_name ->
     getitem cargo_lock "package" = Ok (TArr deps) ->
     Forall (fun d => is_table d = true) deps ->
     Exists (fun d => getitem d "name" = Raise (KeyError "name") \/
                      getitem d "version" = Raise (KeyError "version")) deps ->
     exists k, (k = "name" \/ k = "version") /\
       generate_crate_list toml_loads sourcedir w = (Raise (KeyError k), w)).
Proof.
  intros Ht Hl. rewrite (generate_crate_list_loaded _ _ _ _ _ Ht Hl).
  unfold crate_list_of. split; [|split].
  - intros ->. reflexivity.
  - intros package -> Hn. res_simpl. now rewrite Hn.
  - intros package app_name deps -> Hn Hd Htab Hex. res_simpl.
    rewrite Hn. res_simpl. rewrite Hd. res_simpl.
    destruct (loop_raise_key app_name deps acc0 Htab) as (k & Hk & Hloop).
    { eapply Exists_impl; [exact Hex|]. intros d. apply absent_key_no_crate. }
    exists k. split; [exact Hk|]. now rewrite Hloop.
Qed.

(** ** The scenario of the specification *)

(** C5: for a descriptor that names the package [foo] and the lock list
    [foo 1.0] from the registry, [bar 2.0] from the registry, [baz 0.1]
    without source, the helper returns [True], [('bar', '2.0')] and
    [('baz', '0.1')]. *)
Theorem scenario_foo (toml_loads : string -> option toml)
    (w : world) (sourcedir : string) :
  toml_load toml_loads (os_path_join sourcedir "Cargo.toml") w
    = (Ok (descriptor "foo"), w) ->
  toml_load toml_loads (os_path_join sourcedir "Cargo.lock") w
    = (Ok (lock_of
             [entry "foo" "1.0"
                (Some "registry+https://github.com/rust-lang/crates.io-index");
              entry "bar" "2.0"
                (Some "registry+https://github.com/rust-lang/crates.io-index");
              entry "baz" "0.1" None]), w) ->
  generate_crate_list toml_loads sourcedir w =
  (Ok (true, [(TStr "bar", TStr "2.0")], [(TStr "baz", TStr "0.1")]), w).
Proof.
  intros Ht Hl. rewrite (generate_crate_list_loaded _ _ _ _ _ Ht Hl).
  reflexivity.
Qed.

(** ** The helper on objects: what a pass reads and what it writes *)

Ltac hm_simpl :=
  repeat (unfold mbind, mret, hm_bind, hm_ret, outcome_bind, outcome_ret,
            h_read, h_getitem, h_eq, h_contains in *; cbn beta iota in * ).

(** A pass reads the store to reach its verdict on the entry and then
    writes at most one thing: the new tuple at the end of one of the two
    lists. *)
Lemma h_loop_body_run (n : nat) (app_name dep : val) (c o : nat)
    (xs ys : list val) (flag : bool) (hx : list obj) :
  hx !! c = Some (OList xs) ->
  hx !! o = Some (OList ys) ->
  h_loop_body n app_name (VRef c) (VRef o) dep flag hx =
  match o_classify n hx app_name dep with
  | Returns Own => (Some (Returns true), hx)
  | Returns (Registry t) => (Some (Returns flag), <[c := OList (xs ++ [t])]> hx)
  | Returns (Elsewhere t) => (Some (Returns flag), <[o := OList (ys ++ [t])]> hx)
  | Raises e => (Some (Raises e), hx)
  | RaisesOther name => (Some (RaisesOther name), hx)
  end.
Proof.
  intros Hc Ho. unfold h_loop_body, h_from_registry, o_classify, h_append.
  hm_simpl.
  destruct (o_getitem hx dep "name") as [name|e|s]; try reflexivity.
  destruct (o_getitem hx dep "version") as [version|e|s]; try reflexivity.
  destruct (o_contains n hx "source" dep) as [[|]|e|s]; try reflexivity.
  - destruct (o_getitem hx dep "source") as [src|e|s]; try reflexivity.
    destruct (o_eq n hx src (VStr registry_source)) as [[|]|e|s];
      try reflexivity.
    + destruct (o_eq n hx name app_name) as [[|]|e|s]; try reflexivity.
      now rewrite Hc.
    + now rewrite Ho.
  - now rewrite Ho.
Qed.

(** ** Reading a store that has grown *)

Lemma assoc_in {A} (k : string) (t : list (string * A)) (v : A) :
  assoc k t = Some v -> In (k, v) t.
Proof.
  induction t as [|[k' v'] t IH]; cbn; [discriminate|].
  destruct (String.eqb_spec k k') as [->|_].
  - intros [= ->]. now left.
  - intros H. right. now apply IH.
Qed.

Lemma closed_lookup (h : list obj) (l : nat) (o : obj) :
  closed h -> h !! l = Some o -> obj_ok (length h) o.
Proof. intros Hc Hl. exact (Forall_lookup_1 _ _ _ _ Hc Hl). Qed.

Lemma all2_by_ext (f g : val -> val -> outcome bool) (xs ys : list val) :
  (forall x y, In x xs -> In y ys -> f x y = g x y) ->
  all2_by f xs ys = all2_by g xs ys.
Proof.
  revert ys. induction xs as [|x xs IH]; intros [|y ys] H; try reflexivity.
  cbn. rewrite (H x y) by now left.
  rewrite IH; [reflexivity|]. intros; apply H; now right.
Qed.

Lemma sub_by_ext (f g : val -> val -> outcome bool) (mb ma : list (string * val)) :
  (forall k v w, In (k, v) ma -> In (k, w) mb -> f v w = g v w) ->
  sub_by f mb ma = sub_by g mb ma.
Proof.
  induction ma as [|[k v] ma IH]; intros H; [reflexivity|]. cbn.
  destruct (assoc k mb) as [w|] eqn:Hw; [|reflexivity].
  assert (Hv : In (k, v) ((k, v) :: ma)) by now left.
  assert (Hin : In (k, w) mb) by now apply assoc_in.
  rewrite (H k v w Hv Hin).
  rewrite IH; [reflexivity|].
  intros k' v' w' Hv' Hw'. apply (H k' v' w'); [now right | exact Hw'].
Qed.

Section Grown.

(** A store [h] without dangling addresses, and a store [hx] that holds
    the objects of [h] unchanged and maybe more. *)
Variables h hx : list obj.
Hypothesis h_closed : closed h.
Hypothesis hx_agree : agree (length h) h hx.

Lemma o_getitem_agree (o : val) (key : string) :
  val_ok (length h) o -> o_getitem hx o key = o_getitem h o key.
Proof.
  destruct o as [| | | |l]; try reflexivity. cbn. intros Hl.
  now rewrite (hx_agree l Hl).
Qed.

Lemma o_getitem_ok (o : val) (key : string) (v : val) :
  o_getitem h o key = Returns v -> val_ok (length h) v.
Proof.
  destruct o as [| | | |l]; try discriminate. cbn.
  destruct (h !! l) as [[xs|kvs]|] eqn:Hl; try discriminate.
  destruct (assoc key kvs) as [w|] eqn:Hw; [|discriminate].
  intros [= <-]. pose proof (closed_lookup _ _ _ h_closed Hl) as Hok.
  cbn in Hok. rewrite Forall_forall in Hok.
  apply assoc_in, list_elem_of_In in Hw. exact (Hok _ Hw).
Qed.

Lemma o_eq_agree (n : nat) (a b : val) :
  val_ok (length h) a -> val_ok (length h) b ->
  o_eq n hx a b = o_eq n h a b.
Proof.
  revert a b. induction n as [|n IH]; intros a b Ha Hb; [reflexivity|].
  destruct a as [| | |a1 a2|la], b as [| | |b1 b2|lb]; try reflexivity.
  - cbn in Ha, Hb. cbn [o_eq]. rewrite !IH by tauto. reflexivity.
  - cbn in Ha, Hb. cbn [o_eq]. destruct (Nat.eqb la lb); [reflexivity|].
    rewrite (hx_agree la Ha), (hx_agree lb Hb).
    destruct (h !! la) as [[xs|ma]|] eqn:Hla; [| |reflexivity];
      destruct (h !! lb) as [[ys|mb]|] eqn:Hlb; try reflexivity.
    + pose proof (closed_lookup _ _ _ h_closed Hla) as Hxs.
      pose proof (closed_lookup _ _ _ h_closed Hlb) as Hys.
      cbn in Hxs, Hys. rewrite Forall_forall in Hxs, Hys.
      destruct (Nat.eqb (length xs) (length ys)); [|reflexivity].
      apply all2_by_ext. intros x y Hx Hy.
      apply IH; [apply Hxs | apply Hys]; now apply list_elem_of_In.
    + pose proof (closed_lookup _ _ _ h_closed Hla) as Hma.
      pose proof (closed_lookup _ _ _ h_closed Hlb) as Hmb.
      cbn in Hma, Hmb. rewrite Forall_forall in Hma, Hmb.
      destruct (Nat.eqb (length ma) (length mb)); [|reflexivity].
      apply sub_by_ext. intros k v w Hv Hw.
      apply IH; [exact (Hma (k, v) (proj2 (list_elem_of_In _ _) Hv))
                | exact (Hmb (k, w) (proj2 (list_elem_of_In _ _) Hw))].
Qed.

Lemma o_any_agree (n : nat) (x : val) (xs : list val) :
  val_ok (length h) x -> Forall (val_ok (length h)) xs ->
  o_any n hx x xs = o_any n h x xs.
Proof.
  intros Hx. induction 1 as [|y xs Hy _ IH]; [reflexivity|].
  cbn. now rewrite o_eq_agree, IH.
Qed.

Lemma o_contains_agree (n : nat) (key : string) (o : val) :
  val_ok (length h) o -> o_contains n hx key o = o_contains n h key o.
Proof.
  destruct o as [| | |a b|l]; try reflexivity; cbn.
  - intros [Ha Hb]. apply (o_any_agree n (VStr key) [a; b]); [exact I|].
    now repeat constructor.
  - intros Hl. rewrite (hx_agree l Hl).
    destruct (h !! l) as [[xs|kvs]|] eqn:E; try reflexivity.
    apply o_any_agree; [exact I|]. exact (closed_lookup _ _ _ h_closed E).
Qed.

Lemma o_classify_agree (n : nat) (app_name dep : val) :
  val_ok (length h) app_name -> val_ok (length h) dep ->
  o_classify n hx app_name dep = o_classify n h app_name dep.
Proof.
  intros Ha Hd. unfold o_classify.
  rewrite !o_getitem_agree, o_contains_agree by assumption.
  destruct (o_getitem h dep "name") as [name|e|s] eqn:Hn; try reflexivity.
  destruct (o_getitem h dep "version") as [version|e|s]; try reflexivity.
  cbn. destruct (o_contains n h "source" dep) as [[|]|e|s]; try reflexivity.
  cbn. destruct (o_getitem h dep "source") as [src|e|s] eqn:Hs; try reflexivity.
  cbn. rewrite !o_eq_agree; eauto using o_getitem_ok. exact I.
Qed.

Lemma o_items_agree (o : val) :
  val_ok (length h) o -> o_items hx o = o_items h o.
Proof.
  destruct o as [| | | |l]; try reflexivity. cbn. intros Hl.
  now rewrite (hx_agree l Hl).
Qed.

Lemma o_items_ok (o : val) (items : list val) :
  val_ok (length h) o -> o_items h o = Returns items ->
  Forall (val_ok (length h)) items.
Proof.
  destruct o as [s| | |a b|l]; cbn; try discriminate.
  - intros _ [= <-]. apply Forall_forall. intros x Hx.
    apply list_elem_of_In, in_map_iff in Hx as (c & <- & _). exact I.
  - intros [Ha Hb] [= <-]. now repeat constructor.
  - intros _. destruct (h !! l) as [[xs|kvs]|] eqn:E; try discriminate.
    + intros [= <-]. exact (closed_lookup _ _ _ h_closed E).
    + intros [= <-]. apply Forall_forall. intros x Hx.
      apply list_elem_of_In, in_map_iff in Hx as (kv & <- & _). exact I.
Qed.

End Grown.

(** ** The loop on objects *)

Section Passes.

Variables (n : nat) (h : list obj) (app_name : val) (c o : nat).
Hypothesis h_closed : closed h.
Hypothesis app_ok : val_ok (length h) app_name.
Hypothesis c_new : length h <= c.
Hypothesis o_new : length h <= o.
Hypothesis c_o : c <> o.

Lemma lists_unchanged (hx : list obj) (xs ys : list val) :
  hx !! c = Some (OList xs) -> hx !! o = Some (OList ys) ->
  <[o := OList (ys ++ [])]> (<[c := OList (xs ++ [])]> hx) = hx.
Proof.
  intros Hc Ho. rewrite !app_nil_r.
  rewrite (list_insert_id hx c _ Hc). now apply list_insert_id.
Qed.

(** One pass followed by the rest of the loop, when the rest does what
    [o_loop] says. *)
Lemma loop_step (k : bool -> hm bool) (dep : val) (items : list val)
    (flag : bool) (hx : list obj) (xs ys : list val) :
  agree (length h) h hx ->
  val_ok (length h) dep ->
  hx !! c = Some (OList xs) ->
  hx !! o = Some (OList ys) ->
  (forall flag' hx' xs' ys',
     agree (length h) h hx' ->
     hx' !! c = Some (OList xs') ->
     hx' !! o = Some (OList ys') ->
     k flag' hx' =
     let '(r, cs, os) := o_loop n h app_name items flag' in
     (Some r, <[o := OList (ys' ++ os)]> (<[c := OList (xs' ++ cs)]> hx'))) ->
  (flag' ← h_loop_body n app_name (VRef c) (VRef o) dep flag; k flag') hx =
  let '(r, cs, os) := o_loop n h app_name (dep :: items) flag in
  (Some r, <[o := OList (ys ++ os)]> (<[c := OList (xs ++ cs)]> hx)).
Proof.
  intros Hag Hdep Hc Ho Hk. unfold mbind, hm_bind.
  rewrite (h_loop_body_run _ _ _ _ _ _ _ _ _ Hc Ho).
  rewrite (o_classify_agree h hx h_closed Hag n app_name dep app_ok Hdep).
  cbn [o_loop].
  pose proof (lookup_lt_Some _ _ _ Hc) as Hclt.
  pose proof (lookup_lt_Some _ _ _ Ho) as Holt.
  destruct (o_classify n h app_name dep) as [[|t|t]|e|s].
  - now apply Hk.
  - rewrite (Hk flag (<[c := OList (xs ++ [t])]> hx) (xs ++ [t]) ys).
    + destruct (o_loop n h app_name items flag) as [[r cs] os].
      rewrite list_insert_insert_eq, <- app_assoc. reflexivity.
    + intros l Hl. rewrite list_lookup_insert_ne by lia. now apply Hag.
    + now apply list_lookup_insert_eq.
    + now rewrite list_lookup_insert_ne.
  - rewrite (Hk flag (<[o := OList (ys ++ [t])]> hx) xs (ys ++ [t])).
    + destruct (o_loop n h app_name items flag) as [[r cs] os].
      rewrite (list_insert_insert_ne _ c o) by exact c_o.
      rewrite list_insert_insert_eq, <- app_assoc. reflexivity.
    + intros l Hl. rewrite list_lookup_insert_ne by lia. now apply Hag.
    + rewrite list_lookup_insert_ne by congruence. exact Hc.
    + now apply list_lookup_insert_eq.
  - now rewrite (lists_unchanged hx xs ys Hc Ho).
  - now rewrite (lists_unchanged hx xs ys Hc Ho).
Qed.

Lemma h_fold_run (items : list val) :
  Forall (val_ok (length h)) items ->
  forall (flag : bool) (hx : list obj) (xs ys : list val),
    agree (length h) h hx ->
    hx !! c = Some (OList xs) ->
    hx !! o = Some (OList ys) ->
    h_fold (h_loop_body n app_name (VRef c) (VRef o)) items flag hx =
    let '(r, cs, os) := o_loop n h app_name items flag in
    (Some r, <[o := OList (ys ++ os)]> (<[c := OList (xs ++ cs)]> hx)).
Proof.
  induction 1 as [|dep items Hdep _ IH]; intros flag hx xs ys Hag Hc Ho.
  - cbn. unfold mret, hm_ret. now rewrite (lists_unchanged hx xs ys Hc Ho).
  - cbn [h_fold]. now apply loop_step.
Qed.

Lemma h_for_run (l : nat) (items : list val) :
  h !! l = Some (OList items) ->
  forall (fuel i : nat) (flag : bool) (hx : list obj) (xs ys : list val),
    length items - i < fuel ->
    agree (length h) h hx ->
    hx !! c = Some (OList xs) ->
    hx !! o = Some (OList ys) ->
    h_for fuel (h_loop_body n app_name (VRef c) (VRef o)) l i flag hx =
    let '(r, cs, os) := o_loop n h app_name (drop i items) flag in
    (Some r, <[o := OList (ys ++ os)]> (<[c := OList (xs ++ cs)]> hx)).
Proof.
  intros Hl. pose proof (closed_lookup _ _ _ h_closed Hl) as Hitems.
  cbn in Hitems.
  induction fuel as [|fuel IH]; intros i flag hx xs ys Hfuel Hag Hc Ho; [lia|].
  cbn [h_for]. rewrite (Hag l (lookup_lt_Some _ _ _ Hl)), Hl.
  destruct (items !! i) as [dep|] eqn:Hi.
  - rewrite (drop_S _ _ _ Hi).
    apply loop_step; try assumption.
    + exact (Forall_lookup_1 _ _ _ _ Hitems Hi).
    + intros flag' hx' xs' ys' Hag' Hc' Ho'. apply IH; try assumption.
      pose proof (lookup_lt_Some _ _ _ Hi). lia.
  - apply lookup_ge_None_1 in Hi. rewrite drop_ge by exact Hi. cbn.
    now rewrite (lists_unchanged hx xs ys Hc Ho).
Qed.

End Passes.

(** ** The helper on objects as a whole *)

Lemma two_new_lists (hx : list obj) (cs os : list val) :
  <[S (length hx) := OList ([] ++ os)]>
    (<[length hx := OList ([] ++ cs)]> ((hx ++ [OList []]) ++ [OList []]))
  = hx ++ [OList cs; OList os].
Proof.
  rewrite <- app_assoc. cbn [app].
  replace (length hx) with (length hx + 0)%nat at 2 by lia.
  rewrite insert_app_r. cbn.
  replace (S (length hx)) with (length hx + 1)%nat by lia.
  now rewrite insert_app_r.
Qed.

(** The run of the helper on a store [hx] that holds the objects of a
    closed store [h] unchanged, once the three subscripts of lines 191
    and 192 have gone through: the outcome is read off [h], and the store
    grows by the two lists. *)
Lemma crate_list_heap_run (fuel n : nat) (h hx : list obj)
    (ct cl package app_name deps : val) :
  closed h ->
  agree (length h) h hx ->
  length h <= length hx ->
  val_ok (length h) ct ->
  val_ok (length h) cl ->
  o_getitem h ct "package" = Returns package ->
  o_getitem h package "name" = Returns app_name ->
  o_getitem h cl "package" = Returns deps ->
  (forall items, list_at h deps = Some items -> length items < fuel) ->
  crate_list_heap fuel n ct cl hx =
  let '(r, cs, os) :=
    match o_items h deps with
    | Returns items => o_loop n h app_name items false
    | Raises e => (Raises e, [], [])
    | RaisesOther name => (RaisesOther name, [], [])
    end in
  (Some (flag ← r; Returns (flag, VRef (length hx), VRef (S (length hx)))),
   hx ++ [OList cs; OList os]).
Proof.
  intros Hcl Hag Hlen Hct Hclk Hp Hn Hd Hfuel.
  pose proof (o_getitem_ok h Hcl _ _ _ Hp) as Hpackage.
  pose proof (o_getitem_ok h Hcl _ _ _ Hn) as Happ.
  pose proof (o_getitem_ok h Hcl _ _ _ Hd) as Hdeps.
  unfold crate_list_heap, h_new_list. hm_simpl.
  rewrite (o_getitem_agree h hx Hag ct) by exact Hct. rewrite Hp.
  rewrite (o_getitem_agree h hx Hag package) by exact Hpackage. rewrite Hn.
  rewrite (o_getitem_agree h hx Hag cl) by exact Hclk. rewrite Hd.
  rewrite length_app. cbn [length]. replace (length hx + 1)%nat with (S (length hx)) by lia.
  set (hx2 := (hx ++ [OList []]) ++ [OList []]).
  assert (Hag2 : agree (length h) h hx2).
  { intros l Hl. unfold hx2. rewrite !lookup_app_l by (rewrite ?length_app; lia).
    now apply Hag. }
  assert (Hc : hx2 !! length hx = Some (OList [])).
  { unfold hx2. rewrite lookup_app_l by (rewrite length_app; cbn; lia).
    rewrite lookup_app_r by lia. now rewrite Nat.sub_diag. }
  assert (Ho : hx2 !! S (length hx) = Some (OList [])).
  { unfold hx2. rewrite lookup_app_r by (rewrite length_app; cbn; lia).
    rewrite length_app. cbn. now replace (S (length hx) - (length hx + 1))%nat with 0%nat by lia. }
  assert (Hfold : forall items,
            o_items h deps = Returns items ->
            h_fold (h_loop_body n app_name (VRef (length hx)) (VRef (S (length hx))))
              items false hx2 =
            let '(r, cs, os) := o_loop n h app_name items false in
            (Some r, hx ++ [OList cs; OList os])).
  { intros items Hit.
    rewrite (h_fold_run n h app_name (length hx) (S (length hx)) Hcl Happ
               ltac:(lia) ltac:(lia) ltac:(lia) items
               (o_items_ok h Hcl deps items Hdeps Hit) false hx2 [] [] Hag2 Hc Ho).
    destruct (o_loop n h app_name items false) as [[r cs] os].
    unfold hx2. now rewrite two_new_lists. }
  unfold h_iter.
  destruct deps as [s|z|b|a b|l].
  - rewrite (Hfold _ eq_refl). cbn [o_items].
    destruct (o_loop n h app_name (map VStr (chars s)) false) as [[[flag|e|name] cs] os];
      reflexivity.
  - cbn. unfold hx2. now rewrite <- app_assoc.
  - cbn. unfold hx2. now rewrite <- app_assoc.
  - rewrite (Hfold _ eq_refl). cbn [o_items].
    destruct (o_loop n h app_name [a; b] false) as [[[flag|e|name] cs] os];
      reflexivity.
  - cbn in Hdeps. rewrite (Hag2 l Hdeps). cbn [o_items].
    destruct (h !! l) as [[items|kvs]|] eqn:Hl.
    + rewrite (h_for_run n h app_name (length hx) (S (length hx)) Hcl Happ
                 ltac:(lia) ltac:(lia) ltac:(lia) l items Hl fuel 0 false hx2 [] []
                 ltac:(specialize (Hfuel items); cbn in Hfuel; rewrite Hl in Hfuel;
                       specialize (Hfuel eq_refl); lia)
                 Hag2 Hc Ho).
      rewrite drop_0.
      destruct (o_loop n h app_name items false) as [[[flag|e|name] cs] os];
        unfold hx2; rewrite two_new_lists; reflexivity.
    + rewrite (Hfold (map (fun kv => VStr (fst kv)) kvs)) by (cbn; now rewrite Hl).
      destruct (o_loop n h app_name _ false) as [[[flag|e|name] cs] os];
        reflexivity.
    + cbn. unfold hx2. now rewrite <- app_assoc.
Qed.

Lemma agree_refl (h : list obj) : agree (length h) h h.
Proof. now intros l _. Qed.

Lemma agree_app (h extra : list obj) : agree (length h) h (h ++ extra).
Proof. intros l Hl. now apply lookup_app_l. Qed.

(** C8: the helper run on two parsed documents held in a store without
    dangling addresses, with a bound on the passes that exceeds the
    length of the lock list, ends as Python ends; every object that was
    in the store, the two documents with all their lists and tables among
    them, is afterwards what it was before; and a second call on the same
    two documents ends the same way: in the same exception, or with the
    same flag and two new lists that hold the same tuples as the lists of
    the first call. *)
Theorem no_mutation_same_result (fuel limit : nat) (h h1 h2 : list obj)
    (cargo_toml cargo_lock : val)
    (r1 r2 : option (outcome (bool * val * val))) :
  closed h ->
  val_ok (length h) cargo_toml ->
  val_ok (length h) cargo_lock ->
  (forall deps items,
     o_getitem h cargo_lock "package" = Returns deps ->
     list_at h deps = Some items -> length items < fuel) ->
  crate_list_heap fuel limit cargo_toml cargo_lock h = (r1, h1) ->
  crate_list_heap fuel limit cargo_toml cargo_lock h1 = (r2, h2) ->
  (forall l x, h !! l = Some x -> h1 !! l = Some x) /\
  (forall l x, h1 !! l = Some x -> h2 !! l = Some x) /\
  exists res1 res2,
    r1 = Some res1 /\ r2 = Some res2 /\ same_result h2 res1 res2.
Proof.
  intros Hcl Hct Hlock Hfuel Hrun1 Hrun2.
  destruct (o_getitem h cargo_toml "package") as [package|e|name] eqn:Hp.
  2,3: unfold crate_list_heap in Hrun1; hm_simpl; rewrite Hp in Hrun1;
       injection Hrun1 as <- <-;
       unfold crate_list_heap in Hrun2; hm_simpl; rewrite Hp in Hrun2;
       injection Hrun2 as <- <-;
       (split; [auto|]); (split; [auto|]); eexists _, _;
       (split; [reflexivity|]); (split; [reflexivity|]); reflexivity.
  destruct (o_getitem h package "name") as [app_name|e|name] eqn:Hn.
  2,3: unfold crate_list_heap in Hrun1; hm_simpl; rewrite Hp, Hn in Hrun1;
       injection Hrun1 as <- <-;
       unfold crate_list_heap in Hrun2; hm_simpl; rewrite Hp, Hn in Hrun2;
       injection Hrun2 as <- <-;
       (split; [auto|]); (split; [auto|]); eexists _, _;
       (split; [reflexivity|]); (split; [reflexivity|]); reflexivity.
  destruct (o_getitem h cargo_lock "package") as [deps|e|name] eqn:Hd.
  2,3: unfold crate_list_heap in Hrun1; hm_simpl; rewrite Hp, Hn, Hd in Hrun1;
       injection Hrun1 as <- <-;
       unfold crate_list_heap in Hrun2; hm_simpl; rewrite Hp, Hn, Hd in Hrun2;
       injection Hrun2 as <- <-;
       (split; [auto|]); (split; [auto|]); eexists _, _;
       (split; [reflexivity|]); (split; [reflexivity|]); reflexivity.
  specialize (Hfuel deps).
  rewrite (crate_list_heap_run fuel limit h h _ _ package app_name deps Hcl
             (agree_refl h) (le_n _) Hct Hlock Hp Hn Hd (fun items => Hfuel items eq_refl))
    in Hrun1.
  destruct (match o_items h deps with
            | Returns items => o_loop limit h app_name items false
            | Raises e => (Raises e, [], [])
            | RaisesOther name => (RaisesOther name, [], [])
            end) as [[r cs] os] eqn:Hres.
  injection Hrun1 as <- <-.
  rewrite (crate_list_heap_run fuel limit h (h ++ [OList cs; OList os]) _ _
             package app_name deps Hcl (agree_app h _)
             ltac:(rewrite length_app; lia) Hct Hlock Hp Hn Hd
             (fun items => Hfuel items eq_refl)) in Hrun2.
  rewrite Hres in Hrun2. injection Hrun2 as <- <-.
  split; [intros l x Hl; now apply lookup_app_l_Some|].
  split; [intros l x Hl; now apply lookup_app_l_Some|].
  eexists _, _. split; [reflexivity|]. split; [reflexivity|].
  destruct r as [flag|e|name]; cbn; [|reflexivity..].
  split; [reflexivity|].
  set (h1 := h ++ [OList cs; OList os]).
  assert (H1c : h1 !! length h = Some (OList cs)).
  { unfold h1. rewrite lookup_app_r by lia. now rewrite Nat.sub_diag. }
  assert (H1o : h1 !! S (length h) = Some (OList os)).
  { unfold h1. rewrite lookup_app_r by lia.
    now replace (S (length h) - length h)%nat with 1%nat by lia. }
  split.
  - exists cs. rewrite (lookup_app_l_Some _ _ _ _ H1c).
    rewrite lookup_app_r by lia. now rewrite Nat.sub_diag.
  - exists os. rewrite (lookup_app_l_Some _ _ _ _ H1o).
    rewrite lookup_app_r by lia.
    now replace (S (length h1) - length h1)%nat with 1%nat by lia.
Qed.

(** ** The script *)

Lemma world_eta (w : world) : World (files w) (stdout w ++ []) = w.
Proof. destruct w. cbn. now rewrite app_nil_r. Qed.

(** A crate line is never the placeholder line. *)
Lemma crate_line_not_placeholder (c : crate) (line : string) :
  crate_line c = Ok line -> line <> "    (name, version),".
Proof.
  destruct c as [[n| | | |] v]; cbn; try discriminate.
  destruct v as [v| | | |]; cbn; try discriminate.
  intros [= <-]. discriminate.
Qed.

(** Printing the crates appends lines, none of them the placeholder. *)
Lemma print_crates_out (cs : list crate) (w : world) :
  exists r out,
    print_crates cs w = (r, World (files w) (stdout w ++ out)) /\
    Forall (fun line => line <> "    (name, version),") out /\
    (cs <> [] -> r = Ok tt -> out <> []).
Proof.
  revert w. induction cs as [|c cs IH]; intros w.
  - exists (Ok tt), []. cbn. unfold mret, io_ret. rewrite world_eta.
    split; [reflexivity|]. split; [constructor | congruence].
  - cbn [print_crates]. unfold mbind, io_bind, lift, print.
    destruct (crate_line c) as [line|e] eqn:Hc.
    + destruct (IH (World (files w) (stdout w ++ [line]))) as (r & out & H & Hout & _).
      cbn [files stdout] in H. rewrite H.
      exists r, (line :: out). rewrite <- app_assoc. cbn.
      split; [now destruct r|]. split; [|congruence].
      constructor; [exact (crate_line_not_placeholder c line Hc) | exact Hout].
    + exists (Raise e), []. rewrite world_eta.
      split; [reflexivity|]. split; [constructor | congruence].
Qed.

(** Crates whose names and versions are strings are all printed. *)
Lemma print_crates_strings (pairs : list (string * string)) (w : world) :
  print_crates (map (fun p => (TStr (fst p), TStr (snd p))) pairs) w =
  (Ok tt,
   World (files w)
     (stdout w ++
      map (fun p => ((("    ('" +:+ fst p) +:+ "', '") +:+ snd p) +:+ "'),") pairs)).
Proof.
  revert w. induction pairs as [|p pairs IH]; intros w.
  - cbn. unfold mret, io_ret. now rewrite world_eta.
  - cbn [map print_crates]. unfold mbind, io_bind, lift, print.
    cbn [crate_line str_add fst snd mbind res_bind mret res_ret].
    unfold mbind, mret, res_bind, res_ret. rewrite IH. cbn [files stdout].
    now rewrite <- app_assoc.
Qed.

(** C6: run on a directory for which the helper returns a flag and two
    lists, the script writes to standard output if and only if the flag is
    true or the registry crates are not empty.  What it writes is the
    opening line, the placeholder line exactly when the flag is true, one
    line per registry crate in order, and the closing line; the other
    crates play no part in it. *)
Theorem main_rendering (toml_loads : string -> option toml)
    (argv : list string) (sourcedir : string) (w : world)
    (s : bool) (reg oth : list crate) :
  argv !! 1%nat = Some sourcedir ->
  generate_crate_list toml_loads sourcedir w = (Ok (s, reg, oth), w) ->
  exists r out,
    main toml_loads argv w = (r, World (files w) (stdout w ++ out)) /\
    (out <> [] <-> s = true \/ reg <> []) /\
    (out <> [] ->
     out !! 0%nat = Some "crates = [" /\
     (out !! 1%nat = Some "    (name, version)," <-> s = true)) /\
    (forall pairs : list (string * string),
       reg = map (fun p => (TStr (fst p), TStr (snd p))) pairs ->
       s = true \/ reg <> [] ->
       r = Ok tt /\
       out = "crates = ["
             :: (if s then ["    (name, version),"] else [])
             ++ map (fun p =>
                       ((("    ('" +:+ fst p) +:+ "', '") +:+ snd p) +:+ "'),")
                  pairs
             ++ ["]"]).
Proof.
  intros Hargv Hgen. unfold main. unfold mbind at 1 2. unfold io_bind, lift.
  rewrite Hargv, Hgen.
  destruct s.
  - (* the flag is set *)
    cbn [orb]. unfold mbind, io_bind, print. cbn [files stdout].
    destruct (print_crates_out reg (World (files w) ((stdout w ++ ["crates = ["]) ++ ["    (name, version),"])))
      as (r & out & Hp & Hout & _).
    cbn [files stdout] in Hp.
    destruct r as [[]|e].
    + exists (Ok tt), ("crates = [" :: "    (name, version)," :: out ++ ["]"]).
      rewrite Hp. cbn [files stdout].
      split; [f_equal; f_equal; rewrite <- !app_assoc; reflexivity|].
      split; [split; [auto | discriminate]|].
      split; [intros _; cbn; tauto|].
      intros pairs -> _. split; [reflexivity|].
      rewrite print_crates_strings in Hp. cbn [files stdout] in Hp.
      injection Hp as Hp. apply app_inv_head in Hp. now rewrite Hp.
    + exists (Raise e), ("crates = [" :: "    (name, version)," :: out).
      rewrite Hp.
      split; [f_equal; f_equal; rewrite <- !app_assoc; reflexivity|].
      split; [split; [auto | discriminate]|].
      split; [intros _; cbn; tauto|].
      intros pairs -> _. rewrite print_crates_strings in Hp. discriminate.
  - (* the flag is not set *)
    cbn [orb]. destruct reg as [|c reg].
    + cbn [truthy]. exists (Ok tt), []. unfold mret, io_ret. rewrite world_eta.
      split; [reflexivity|].
      split; [split; [congruence | intros [?|?]; congruence]|].
      split; [congruence|].
      intros pairs _ [?|?]; congruence.
    + cbn [truthy]. unfold mbind, io_bind, print. cbn [files stdout].
      unfold mret at 1. unfold io_ret.
      destruct (print_crates_out (c :: reg) (World (files w) (stdout w ++ ["crates = ["])))
        as (r & out & Hp & Hout & Hne).
      cbn [files stdout] in Hp.
      destruct r as [[]|e].
      * exists (Ok tt), ("crates = [" :: out ++ ["]"]).
        rewrite Hp. cbn [files stdout].
        split; [f_equal; f_equal; rewrite <- !app_assoc; reflexivity|].
        split; [split; [right; discriminate | discriminate]|].
        split.
        { intros _. split; [reflexivity|]. split; [|discriminate].
          destruct out as [|line out]; [now destruct Hne|].
          cbn. intros [= ->]. now apply Forall_cons in Hout as [? _]. }
        intros pairs Hreg _. split; [reflexivity|].
        rewrite Hreg, print_crates_strings in Hp. cbn [files stdout] in Hp.
        injection Hp as Hp. apply app_inv_head in Hp. now rewrite Hp.
      * exists (Raise e), ("crates = [" :: out).
        rewrite Hp.
        split; [f_equal; f_equal; rewrite <- !app_assoc; reflexivity|].
        split; [split; [right; discriminate | discriminate]|].
        split.
        { intros _. split; [reflexivity|]. split; [|discriminate].
          destruct out as [|line out]; [discriminate|].
          cbn. intros [= ->]. now apply Forall_cons in Hout as [? _]. }
        intros pairs Hreg _. rewrite Hreg, print_crates_strings in Hp.
        discriminate.
Qed.

(** ** The properties at the sample manifests *)

Ltac entries_ok := repeat constructor; eexists; reflexivity.

Lemma count_partition_witness :
  exists s reg oth,
    generate_crate_list (sample_loads (descriptor "foo") (lock_of sample_deps))
      "src" sample_world = (Ok (s, reg, oth), sample_world) /\
    length reg + length oth
      + length (List.filter
                  (fun d => registry_sourced d && named (TStr "foo") d)
                  sample_deps)
      = length sample_deps /\
    (length reg + length oth + (if s then 1 else 0) = length sample_deps <->
     length (List.filter
               (fun d => registry_sourced d && named (TStr "foo") d)
               sample_deps) <= 1).
Proof.
  apply (count_partition (sample_loads (descriptor "foo") (lock_of sample_deps))
           sample_world "src" (descriptor "foo") (lock_of sample_deps)
           eq_refl eq_refl (TTab [("name", TStr "foo")]) (TStr "foo")
           sample_deps eq_refl eq_refl eq_refl).
  entries_ok.
Defined.

(** With two versions of the package itself in the registry both are left
    out, the flag still counts for one, and the sum falls one short of the
    number of lock entries. *)
Lemma count_partition_counterexample :
  Forall (fun d => is_Some (crate_of d)) two_versions /\
  exists s reg oth,
    generate_crate_list (sample_loads (descriptor "foo") (lock_of two_versions))
      "src" sample_world = (Ok (s, reg, oth), sample_world) /\
    length reg + length oth + (if s then 1 else 0) <> length two_versions.
Proof.
  split; [entries_ok|].
  exists true, [], []. split; [reflexivity|]. cbn. lia.
Qed.

Lemma self_exclusion_witness :
  exists st1 st2 reg oth,
    loop (TStr "foo") acc0 [] = Ok st1 /\
    loop (TStr "foo") acc0
      [entry "bar" "2.0" (Some registry_source); entry "baz" "0.1" None]
      = Ok st2 /\
    generate_crate_list (sample_loads (descriptor "foo") (lock_of sample_deps))
      "src" sample_world = (Ok (true, reg, oth), sample_world) /\
    reg = crates st1 ++ crates st2 /\
    oth = other_crates st1 ++ other_crates st2 /\
    Forall (fun c => py_eq (fst c) (TStr "foo") = false) reg.
Proof.
  apply (self_exclusion (sample_loads (descriptor "foo") (lock_of sample_deps))
           sample_world "src" (descriptor "foo") (lock_of sample_deps)
           eq_refl eq_refl (TTab [("name", TStr "foo")]) (TStr "foo")
           sample_deps eq_refl eq_refl eq_refl
           [] [entry "bar" "2.0" (Some registry_source); entry "baz" "0.1" None]
           (entry "foo" "1.0" (Some registry_source)) (TStr "foo")).
  - reflexivity.
  - entries_ok.
  - reflexivity.
  - reflexivity.
  - reflexivity.
Defined.

Lemma registry_routing_witness :
  exists st1 st2 s reg oth,
    loop (TStr "foo") acc0 [entry "foo" "1.0" (Some registry_source)] = Ok st1 /\
    loop (TStr "foo") acc0 [entry "baz" "0.1" None] = Ok st2 /\
    generate_crate_list (sample_loads (descriptor "foo") (lock_of sample_deps))
      "src" sample_world = (Ok (s, reg, oth), sample_world) /\
    (reg = crates st1 ++ (TStr "bar", TStr "2.0") :: crates st2 <->
     getitem (entry "bar" "2.0" (Some registry_source)) "source" =
       Ok (TStr "registry+https://github.com/rust-lang/crates.io-index")) /\
    (getitem (entry "bar" "2.0" (Some registry_source)) "source" =
       Ok (TStr "registry+https://github.com/rust-lang/crates.io-index") ->
     oth = other_crates st1 ++ other_crates st2) /\
    (getitem (entry "bar" "2.0" (Some registry_source)) "source" <>
       Ok (TStr "registry+https://github.com/rust-lang/crates.io-index") ->
     reg = crates st1 ++ crates st2 /\
     oth = other_crates st1 ++ (TStr "bar", TStr "2.0") :: other_crates st2).
Proof.
  apply (registry_routing (sample_loads (descriptor "foo") (lock_of sample_deps))
           sample_world "src" (descriptor "foo") (lock_of sample_deps)
           eq_refl eq_refl (TTab [("name", TStr "foo")]) (TStr "foo")
           sample_deps eq_refl eq_refl eq_refl
           [entry "foo" "1.0" (Some registry_source)] [entry "baz" "0.1" None]
           (entry "bar" "2.0" (Some registry_source)) (TStr "bar") (TStr "2.0")).
  - reflexivity.
  - entries_ok.
  - reflexivity.
  - reflexivity.
  - reflexivity.
Defined.

Lemma order_preserved_witness :
  exists s reg oth regs oths,
    generate_crate_list (sample_loads (descriptor "foo") (lock_of sample_deps))
      "src" sample_world = (Ok (s, reg, oth), sample_world) /\
    regs = List.filter (fun d => registry_dep d && negb (named (TStr "foo") d))
             sample_deps /\
    oths = List.filter (fun d => negb (registry_dep d)) sample_deps /\
    sublist regs sample_deps /\
    sublist oths sample_deps /\
    Forall2 (fun d c => crate_of d = Some c) regs reg /\
    Forall2 (fun d c => crate_of d = Some c) oths oth.
Proof.
  apply (order_preserved (sample_loads (descriptor "foo") (lock_of sample_deps))
           sample_world "src" (descriptor "foo") (lock_of sample_deps)
           eq_refl eq_refl (TTab [("name", TStr "foo")]) (TStr "foo")
           sample_deps eq_refl eq_refl eq_refl).
  entries_ok.
Defined.

Lemma own_name_other_source_witness :
  generate_crate_list
    (sample_loads (descriptor "foo") (lock_of [entry "foo" "1.0" None]))
    "src" sample_world
  = (Ok (false, [], [(TStr "foo", TStr "1.0")]), sample_world).
Proof.
  destruct (own_name_other_source
              (sample_loads (descriptor "foo") (lock_of [entry "foo" "1.0" None]))
              sample_world "src" (descriptor "foo")
              (lock_of [entry "foo" "1.0" None])
              eq_refl eq_refl (TTab [("name", TStr "foo")]) (TStr "foo")
              [entry "foo" "1.0" None] eq_refl eq_refl eq_refl
              [] [] (entry "foo" "1.0" None) (TStr "foo") (TStr "1.0"))
    as (st1 & st2 & _ & _ & _ & H).
  - reflexivity.
  - entries_ok.
  - reflexivity.
  - reflexivity.
  - reflexivity.
  - discriminate.
  - apply H; reflexivity.
Defined.

Lemma no_deduplication_witness :
  exists s reg oth,
    generate_crate_list (sample_loads (descriptor "foo") (lock_of repeated_deps))
      "src" sample_world = (Ok (s, reg, oth), sample_world) /\
    occurrences (TStr "bar", TStr "2.0") reg = 2 /\
    occurrences (TStr "baz", TStr "0.1") oth = 2 /\
    occurrences (TStr "foo", TStr "1.0") (reg ++ oth) = 0 /\
    s = true /\
    length reg + length oth = 4.
Proof.
  destruct (no_deduplication
              (sample_loads (descriptor "foo") (lock_of repeated_deps))
              sample_world "src" (descriptor "foo") (lock_of repeated_deps)
              eq_refl eq_refl (TTab [("name", TStr "foo")]) (TStr "foo")
              repeated_deps eq_refl eq_refl eq_refl)
    as (s & reg & oth & Hgen & Hreg & Hoth & Hs & Hlen); [entries_ok|].
  exists s, reg, oth. split; [exact Hgen|].
  split; [rewrite Hreg; reflexivity|].
  split; [rewrite Hoth; reflexivity|].
  split.
  { unfold occurrences. rewrite List.filter_app, length_app.
    fold (occurrences (TStr "foo", TStr "1.0") reg).
    fold (occurrences (TStr "foo", TStr "1.0") oth).
    rewrite Hreg, Hoth. reflexivity. }
  split; [apply Hs; vm_compute; lia | rewrite Hlen; reflexivity].
Defined.

Lemma missing_key_raises_witness :
  exists k, (k = "name" \/ k = "version") /\
    generate_crate_list
      (sample_loads (descriptor "foo") (lock_of [TTab [("name", TStr "bar")]]))
      "src" sample_world
    = (Raise (KeyError k), sample_world).
Proof.
  destruct (missing_key_raises
              (sample_loads (descriptor "foo") (lock_of [TTab [("name", TStr "bar")]]))
              sample_world "src" (descriptor "foo")
              (lock_of [TTab [("name", TStr "bar")]]) eq_refl eq_refl)
    as (_ & _ & H).
  apply (H (TTab [("name", TStr "foo")]) (TStr "foo") [TTab [("name", TStr "bar")]]).
  - reflexivity.
  - reflexivity.
  - reflexivity.
  - repeat constructor.
  - constructor. right. reflexivity.
Defined.

Lemma scenario_foo_witness :
  generate_crate_list (sample_loads (descriptor "foo") (lock_of sample_deps))
    "src" sample_world
  = (Ok (true, [(TStr "bar", TStr "2.0")], [(TStr "baz", TStr "0.1")]),
     sample_world).
Proof.
  apply (scenario_foo (sample_loads (descriptor "foo") (lock_of sample_deps))
           sample_world "src"); reflexivity.
Defined.

Lemma no_mutation_same_result_witness :
  exists r1 h1 r2 h2,
    crate_list_heap 4 10 (VRef 1) (VRef 6) sample_store = (r1, h1) /\
    crate_list_heap 4 10 (VRef 1) (VRef 6) h1 = (r2, h2) /\
    (forall l x, sample_store !! l = Some x -> h1 !! l = Some x) /\
    (forall l x, h1 !! l = Some x -> h2 !! l = Some x) /\
    exists res1 res2,
      r1 = Some res1 /\ r2 = Some res2 /\ same_result h2 res1 res2.
Proof.
  eexists _, _, _, _. split; [reflexivity|]. split; [reflexivity|].
  apply (no_mutation_same_result 4 10 sample_store _ _ (VRef 1) (VRef 6)).
  - unfold closed. cbn. repeat constructor.
  - cbn. lia.
  - cbn. lia.
  - intros deps items Hd Hl. vm_compute in Hd. injection Hd as <-.
    vm_compute in Hl. injection Hl as <-. cbn. lia.
  - reflexivity.
  - reflexivity.
Defined.

Lemma main_rendering_witness :
  exists r out,
    main (sample_loads (descriptor "foo") (lock_of sample_deps))
      ["cargo.py"; "src"] sample_world
    = (r, World (files sample_world) (stdout sample_world ++ out)) /\
    r = Ok tt /\
    out = ["crates = ["; "    (name, version),"; "    ('bar', '2.0'),"; "]"].
Proof.
  destruct (main_rendering
              (sample_loads (descriptor "foo") (lock_of sample_deps))
              ["cargo.py"; "src"] "src" sample_world
              true [(TStr "bar", TStr "2.0")] [(TStr "baz", TStr "0.1")]
              eq_refl eq_refl)
    as (r & out & Hmain & _ & _ & Hout).
  exists r, out. split; [exact Hmain|].
  apply (Hout [("bar", "2.0")]); [reflexivity | left; reflexivity].
Defined.

(** ** Behaviour outside well-formed manifests *)

(** An empty lock list gives no crate at all. *)
Example empty_lock_list :
  crate_list_of (descriptor "foo") (lock_of []) = Ok (false, [], []).
Proof. reflexivity. Qed.

(** A lock entry that is not a table cannot be subscripted. *)
Example entry_not_a_table :
  crate_list_of (descriptor "foo") (lock_of [TStr "bar"]) = Raise TypeError.
Proof. reflexivity. Qed.

(** A lock file without [package] raises on the key. *)
Example lock_without_package :
  crate_list_of (descriptor "foo") (TTab []) = Raise (KeyError "package").
Proof. reflexivity. Qed.

(** A crate whose name is not a string stops the script after the opening
    line. *)
Example script_stops_on_number :
  let lock := lock_of [TTab [("name", TInt 1); ("version", TStr "2.0");
                             ("source", TStr registry_source)]] in
  let r := main (sample_loads (descriptor "foo") lock) ["cargo.py"; "src"]
             sample_world in
  fst r = Raise TypeError /\ stdout (snd r) = ["crates = ["].
Proof. split; reflexivity. Qed.

(** Without an argument the script fails before it reads anything. *)
Example script_without_argument :
  main (sample_loads (descriptor "foo") (lock_of sample_deps)) ["cargo.py"]
    sample_world
  = (Raise IndexError, sample_world).
Proof. reflexivity. Qed.

(** Entries are neither sorted nor merged: the lock order and repeated
    tuples come out as they went in. *)
Example order_and_duplicates_kept :
  crate_list_of (descriptor "foo")
    (lock_of [entry "zeta" "1.0" (Some registry_source);
              entry "alpha" "0.3" (Some registry_source);
              entry "zeta" "1.0" (Some registry_source);
              entry "local" "0.1" None;
              entry "local" "0.1" (Some "git+https://example.org/local")])
  = Ok (false,
        [(TStr "zeta", TStr "1.0"); (TStr "alpha", TStr "0.3");
         (TStr "zeta", TStr "1.0")],
        [(TStr "local", TStr "0.1"); (TStr "local", TStr "0.1")]).
Proof. reflexivity. Qed.

(** ** Texts as lists of characters *)

Lemma app_cons (c : ascii) (s t : string) :
  String c s +:+ t = String c (s +:+ t).
Proof. reflexivity. Qed.

Lemma app_empty_r (s : string) : s +:+ "" = s.
Proof. induction s as [|c s IH]; [reflexivity|]. now rewrite app_cons, IH. Qed.

Lemma app_assoc_text (a b c : string) : (a +:+ b) +:+ c = a +:+ (b +:+ c).
Proof.
  induction a as [|x a IH]; [reflexivity|]. now rewrite !app_cons, IH.
Qed.

Lemma chars_of_app (a b : string) :
  list_ascii_of_string (a +:+ b)
  = list_ascii_of_string a ++ list_ascii_of_string b.
Proof.
  induction a as [|x a IH]; [reflexivity|]. rewrite app_cons. cbn. now rewrite IH.
Qed.

Lemma chars_inj (a b : string) :
  list_ascii_of_string a = list_ascii_of_string b -> a = b.
Proof.
  intros H. rewrite <- (string_of_list_ascii_of_string a),
    <- (string_of_list_ascii_of_string b). now rewrite H.
Qed.

Lemma has_char_chars (c : ascii) (s : string) :
  has_char c s = false <-> ~ In c (list_ascii_of_string s).
Proof.
  induction s as [|a s IH]; cbn; [tauto|].
  destruct (Ascii.eqb_spec a c) as [->|Hne]; cbn.
  - split; [discriminate | intros H; destruct H; now left].
  - rewrite IH. tauto.
Qed.

Lemma has_char_app (c : ascii) (a b : string) :
  has_char c (a +:+ b) = has_char c a || has_char c b.
Proof.
  induction a as [|x a IH]; [reflexivity|].
  rewrite app_cons. cbn. now rewrite IH, orb_assoc.
Qed.

Lemma count_char_app (c : ascii) (a b : string) :
  count_char c (a +:+ b) = count_char c a + count_char c b.
Proof.
  induction a as [|x a IH]; [reflexivity|].
  rewrite app_cons. cbn. rewrite IH. lia.
Qed.

Lemma count_char_none (c : ascii) (s : string) :
  has_char c s = false -> count_char c s = 0.
Proof.
  induction s as [|a s IH]; cbn; [reflexivity|].
  destruct (Ascii.eqb a c); cbn; [discriminate | exact IH].
Qed.

(** Two texts cut at the first occurrence of a character agree on both
    sides of the cut. *)
Lemma cut_at_first {A} (x : A) (a1 a2 r1 r2 : list A) :
  ~ In x a1 -> ~ In x a2 ->
  a1 ++ x :: r1 = a2 ++ x :: r2 ->
  a1 = a2 /\ r1 = r2.
Proof.
  revert a2. induction a1 as [|y a1 IH]; intros [|z a2] H1 H2 H; cbn in *.
  - now injection H.
  - injection H as -> _. tauto.
  - injection H as -> _. tauto.
  - injection H as -> H. destruct (IH a2) as [-> ->]; tauto.
Qed.

(** The same at the last occurrence. *)
Lemma cut_at_last {A} (x : A) (a1 a2 r1 r2 : list A) :
  ~ In x r1 -> ~ In x r2 ->
  a1 ++ x :: r1 = a2 ++ x :: r2 ->
  a1 = a2 /\ r1 = r2.
Proof.
  intros H1 H2 H. apply (f_equal (@rev A)) in H.
  rewrite !rev_app_distr in H. cbn in H. rewrite <- !app_assoc in H. cbn in H.
  apply cut_at_first in H as [Hr Ha]; [|now rewrite <- in_rev..].
  split; [apply rev_inj; exact Ha | apply rev_inj; exact Hr].
Qed.

Lemma prefix_app (a b : string) : String.prefix a (a +:+ b) = true.
Proof.
  induction a as [|x a IH]; [now destruct b|].
  rewrite app_cons. cbn. destruct (ascii_dec x x); [exact IH | congruence].
Qed.

(** ** The sources built from the crates *)

Lemma crate_source_strings (n v : string) :
  crate_source (TStr n, TStr v) =
  Ok (TTab [("download_filename", TStr (((n +:+ "/") +:+ v) +:+ "/download"));
            ("filename", TStr (((n +:+ "-") +:+ v) +:+ ".tar.gz"));
            ("source_urls", TArr [TStr CRATESIO_SOURCE]);
            ("alt_location", TStr "crates.io")]).
Proof. reflexivity. Qed.

Lemma crate_source_not_strings (c : crate) :
  (forall n v, c <> (TStr n, TStr v)) -> crate_source c = Raise TypeError.
Proof.
  destruct c as [[n| | | |] v]; try reflexivity.
  destruct v as [v| | | |]; try reflexivity.
  intros H. now destruct (H n v).
Qed.

Lemma populate_sources_extends (crates : list crate) (sources r : list toml) :
  populate_sources sources crates = Ok r ->
  exists added,
    r = sources ++ added /\
    Forall2 (fun c src => crate_source c = Ok src) crates added.
Proof.
  revert sources. induction crates as [|c crates IH]; intros sources H.
  - injection H as <-. exists []. now rewrite app_nil_r.
  - cbn in H. destruct (crate_source c) as [src|e] eqn:Hc; [|discriminate].
    res_simpl. destruct (IH _ H) as (added & -> & Hall).
    exists (src :: added). rewrite <- app_assoc. split; [reflexivity|].
    now constructor.
Qed.

(** X9: when the constructor's loop over the [crates] parameter goes
    through, the sources that were there come first and unchanged, and
    after them there is exactly one source per crate, in the order of the
    crates. *)
Theorem populate_sources_keeps_order
    (sources r : list toml) (crates : list crate) :
  populate_sources sources crates = Ok r ->
  take (length sources) r = sources /\
  length r = length sources + length crates /\
  forall i c, crates !! i = Some c ->
    exists src, r !! (length sources + i)%nat = Some src /\
                crate_source c = Ok src.
Proof.
  intros H. destruct (populate_sources_extends _ _ _ H) as (added & -> & Hall).
  split; [now rewrite take_app_length|].
  split; [rewrite length_app; f_equal; symmetry; exact (Forall2_length _ _ _ Hall)|].
  intros i c Hi.
  destruct (Forall2_lookup_l _ _ _ _ _ Hall Hi) as (src & Hsrc & Hc).
  exists src. split; [|exact Hc].
  rewrite lookup_app_r by lia. now replace (length sources + i - length sources)%nat with i by lia.
Qed.

(** X10: the loop goes through exactly when every crate has a string for
    its name and for its version; otherwise it ends in a [TypeError]. *)
Theorem populate_sources_type_error (sources : list toml) (crates : list crate) :
  (Forall (fun c => exists n v, c = (TStr n, TStr v)) crates ->
   exists r, populate_sources sources crates = Ok r) /\
  (Exists (fun c => forall n v, c <> (TStr n, TStr v)) crates ->
   populate_sources sources crates = Raise TypeError).
Proof.
  split.
  - intros H. revert sources.
    induction H as [|c crates (n & v & ->) _ IH]; intros sources.
    + now exists sources.
    + cbn [populate_sources]. rewrite crate_source_strings. apply IH.
  - intros H. revert sources.
    induction crates as [|c crates IH]; intros sources; [inversion H|].
    cbn [populate_sources].
    destruct (crate_source c) as [src|e] eqn:Hc.
    + res_simpl. apply IH. inversion H as [? ? Hbad|]; subst; [|assumption].
      rewrite (crate_source_not_strings _ Hbad) in Hc. discriminate.
    + destruct c as [[n| | | |] v]; try (injection Hc as <-; reflexivity).
      destruct v as [v| | | |]; try (injection Hc as <-; reflexivity).
      discriminate.
Qed.

(** X11: two crates whose names hold no [/] and that get the same
    download path are the same crate in the same version. *)
Theorem download_filename_injective (c1 v1 c2 v2 : string) (s1 s2 : toml) :
  has_char "/" c1 = false ->
  has_char "/" c2 = false ->
  crate_source (TStr c1, TStr v1) = Ok s1 ->
  crate_source (TStr c2, TStr v2) = Ok s2 ->
  getitem s1 "download_filename" = getitem s2 "download_filename" ->
  c1 = c2 /\ v1 = v2.
Proof.
  intros H1 H2 Hs1 Hs2 Heq.
  rewrite crate_source_strings in Hs1, Hs2.
  injection Hs1 as <-. injection Hs2 as <-. cbn in Heq.
  injection Heq as Heq. apply (f_equal list_ascii_of_string) in Heq.
  rewrite !chars_of_app in Heq. rewrite <- !app_assoc in Heq. cbn in Heq.
  apply cut_at_first in Heq as [Hc Hv]; [|now apply has_char_chars..].
  apply chars_inj in Hc. apply app_inv_tail in Hv. apply chars_inj in Hv.
  now split.
Qed.

Lemma filename_chars (c m r : string) :
  list_ascii_of_string (((c +:+ "-") +:+ (m +:+ "." +:+ r)) +:+ ".tar.gz")
  = (list_ascii_of_string c ++ "-"%char :: list_ascii_of_string m)
    ++ "."%char :: (list_ascii_of_string r ++ list_ascii_of_string ".tar.gz").
Proof.
  rewrite !chars_of_app. cbn [list_ascii_of_string].
  rewrite <- !app_assoc. reflexivity.
Qed.

(** X12: the archive names do not clash either, for names and versions as
    Cargo writes them: when the crate names hold no dot and each version
    starts with a number (no dot, no hyphen) followed by a dot, two crates
    with the same archive name are the same crate in the same version. *)
Theorem filename_injective (c1 m1 r1 c2 m2 r2 : string) (s1 s2 : toml) :
  has_char "." c1 = false -> has_char "." c2 = false ->
  has_char "." m1 = false -> has_char "." m2 = false ->
  has_char "-" m1 = false -> has_char "-" m2 = false ->
  crate_source (TStr c1, TStr (m1 +:+ "." +:+ r1)) = Ok s1 ->
  crate_source (TStr c2, TStr (m2 +:+ "." +:+ r2)) = Ok s2 ->
  getitem s1 "filename" = getitem s2 "filename" ->
  c1 = c2 /\ m1 = m2 /\ r1 = r2.
Proof.
  intros Hc1 Hc2 Hm1 Hm2 Hd1 Hd2 Hs1 Hs2 Heq.
  rewrite crate_source_strings in Hs1, Hs2.
  injection Hs1 as <-. injection Hs2 as <-. cbn in Heq.
  injection Heq as Heq. apply (f_equal list_ascii_of_string) in Heq.
  rewrite !filename_chars in Heq.
  apply has_char_chars in Hc1, Hc2, Hm1, Hm2, Hd1, Hd2.
  apply cut_at_first in Heq as [Hhead Hr].
  - apply app_inv_tail in Hr. apply chars_inj in Hr.
    apply cut_at_last in Hhead as [Hc Hm]; [|assumption..].
    apply chars_inj in Hc, Hm. now repeat split.
  - rewrite in_app_iff. cbn. intros [?|[?|?]]; [tauto | discriminate | tauto].
  - rewrite in_app_iff. cbn. intros [?|[?|?]]; [tauto | discriminate | tauto].
Qed.

(** Without that shape two different crates can share an archive name. *)
Example filename_clash :
  (s1 ← crate_source (TStr "a-b", TStr "c"); getitem s1 "filename") =
  (s2 ← crate_source (TStr "a", TStr "b-c"); getitem s2 "filename").
Proof. reflexivity. Qed.

(** X5: the line printed for a crate tells its name and version: two
    crates whose names hold no quote and that print the same line are
    equal. *)
Theorem crate_line_injective (n1 v1 n2 v2 line : string) :
  has_char "'" n1 = false ->
  has_char "'" n2 = false ->
  crate_line (TStr n1, TStr v1) = Ok line ->
  crate_line (TStr n2, TStr v2) = Ok line ->
  n1 = n2 /\ v1 = v2.
Proof.
  intros H1 H2 Hl1 Hl2. cbn in Hl1, Hl2. unfold mret, res_ret in Hl1, Hl2.
  rewrite <- Hl2 in Hl1. injection Hl1 as Heq.
  apply (f_equal list_ascii_of_string) in Heq.
  rewrite !chars_of_app in Heq. rewrite <- !app_assoc in Heq.
  apply app_inv_head in Heq. cbn in Heq.
  apply cut_at_first in Heq as [Hn Hv]; [|now apply has_char_chars..].
  apply chars_inj in Hn. injection Hv as Hv.
  apply app_inv_tail in Hv. apply chars_inj in Hv. now split.
Qed.

(** ** When the helper returns and what it raises *)

(** X1: with both manifests loaded, a descriptor that names the package
    and a lock file whose [package] is an array, the helper returns a
    result exactly when every lock entry has a [name] and a [version]. *)
Theorem returns_iff_entries_complete (toml_loads : string -> option toml)
    (w : world) (sourcedir : string)
    (cargo_toml cargo_lock package app_name : toml) (deps : list toml) :
  toml_load toml_loads (os_path_join sourcedir "Cargo.toml") w = (Ok cargo_toml, w) ->
  toml_load toml_loads (os_path_join sourcedir "Cargo.lock") w = (Ok cargo_lock, w) ->
  getitem cargo_toml "package" = Ok package ->
  getitem package "name" = Ok app_name ->
  getitem cargo_lock "package" = Ok (TArr deps) ->
  (exists r, generate_crate_list toml_loads sourcedir w = (Ok r, w)) <->
  Forall (fun d => exists n v, getitem d "name" = Ok n /\
                               getitem d "version" = Ok v) deps.
Proof.
  intros Ht Hl Hp Hn Hd.
  rewrite (generate_crate_list_loop _ _ _ _ _ Ht Hl _ _ _ Hp Hn Hd).
  split.
  - intros [r Hr]. destruct (loop app_name acc0 deps) as [st|e] eqn:Hloop;
      [|discriminate].
    apply loop_ok_inv in Hloop. eapply Forall_impl; [exact Hloop|].
    intros d [[n v] Hc]. apply crate_of_some in Hc. eauto.
  - intros Hall. rewrite (loop_ok app_name deps acc0); [eexists; reflexivity|].
    eapply Forall_impl; [exact Hall|].
    intros d (n & v & H). exists (n, v). now apply crate_of_some.
Qed.

Lemma getitem_raises_only (obj : toml) (key : string) (e : exn) :
  getitem obj key = Raise e -> e = KeyError key \/ e = TypeError.
Proof.
  destruct obj as [| | | |t]; cbn; try (intros [= <-]; now right).
  destruct (assoc key t); [discriminate|]. intros [= <-]. now left.
Qed.

Lemma loop_body_raises_only (app_name : toml) (st : acc) (dep : toml) (e : exn) :
  loop_body app_name st dep = Raise e ->
  e = KeyError "name" \/ e = KeyError "version" \/ e = TypeError.
Proof.
  destruct (crate_of dep) as [[n v]|] eqn:Hc.
  - rewrite (loop_body_ok _ _ _ _ _ Hc). discriminate.
  - destruct (loop_body_raise app_name st dep Hc) as (e' & He & Hk).
    rewrite He. intros [= <-].
    unfold loop_body in He. destruct dep as [| | | |t]; cbn in He;
      try (injection He as <-; tauto).
    destruct (Hk eq_refl); tauto.
Qed.

Lemma loop_raises_only (app_name : toml) (deps : list toml) (st : acc) (e : exn) :
  loop app_name st deps = Raise e ->
  e = KeyError "name" \/ e = KeyError "version" \/ e = TypeError.
Proof.
  revert st. induction deps as [|d deps IH]; intros st; [discriminate|].
  cbn [loop]. destruct (loop_body app_name st d) as [st'|e'] eqn:Hb.
  - res_simpl. apply IH.
  - res_simpl. intros [= <-]. exact (loop_body_raises_only _ _ _ _ Hb).
Qed.

(** X2: whatever the files hold, the helper changes nothing, and an
    exception it ends in is one of: a manifest that is not there or does
    not parse, a [KeyError] for [package], [name] or [version], or a
    [TypeError].  An entry without [source] never raises: the membership
    test comes first. *)
Theorem raised_exceptions (toml_loads : string -> option toml)
    (sourcedir : string) (w w' : world) (e : exn) :
  generate_crate_list toml_loads sourcedir w = (Raise e, w') ->
  w' = w /\
  (e = FileNotFoundError (os_path_join sourcedir "Cargo.toml") \/
   e = TomlDecodeError (os_path_join sourcedir "Cargo.toml") \/
   e = FileNotFoundError (os_path_join sourcedir "Cargo.lock") \/
   e = TomlDecodeError (os_path_join sourcedir "Cargo.lock") \/
   e = KeyError "package" \/ e = KeyError "name" \/ e = KeyError "version" \/
   e = TypeError).
Proof.
  intros H. split.
  { pose proof (generate_crate_list_world toml_loads sourcedir w) as Hw.
    now rewrite H in Hw. }
  revert H. unfold generate_crate_list, toml_load, lift. unfold mbind, io_bind.
  destruct (files w !! os_path_join sourcedir "Cargo.toml") as [t1|];
    [|intros [= <- _]; tauto].
  destruct (toml_loads t1) as [cargo_toml|]; [|intros [= <- _]; tauto].
  destruct (files w !! os_path_join sourcedir "Cargo.lock") as [t2|];
    [|intros [= <- _]; tauto].
  destruct (toml_loads t2) as [cargo_lock|]; [|intros [= <- _]; tauto].
  intros [= H _]. revert H. unfold crate_list_of.
  destruct (getitem cargo_toml "package") as [package|e1] eqn:H1.
  2:{ res_simpl. intros [= <-].
      destruct (getitem_raises_only _ _ _ H1) as [->| ->]; tauto. }
  res_simpl. destruct (getitem package "name") as [app_name|e2] eqn:H2.
  2:{ res_simpl. intros [= <-].
      destruct (getitem_raises_only _ _ _ H2) as [->| ->]; tauto. }
  res_simpl. destruct (getitem cargo_lock "package") as [deps|e3] eqn:H3.
  2:{ res_simpl. intros [= <-].
      destruct (getitem_raises_only _ _ _ H3) as [->| ->]; tauto. }
  res_simpl. destruct (iterate deps) as [items|e4] eqn:H4.
  2:{ res_simpl. intros [= <-].
      destruct deps; cbn in H4; try discriminate; injection H4 as <-; tauto. }
  res_simpl. destruct (loop app_name acc0 items) as [st|e5] eqn:H5.
  - discriminate.
  - res_simpl. intros [= <-].
    destruct (loop_raises_only _ _ _ _ H5) as [->|[->| ->]]; tauto.
Qed.

(** X8: when the [package] of the lock file is not an array, the helper
    never returns a crate: an empty string or an empty table gives the
    empty result, anything else a [TypeError]. *)
Theorem lock_not_an_array (toml_loads : string -> option toml)
    (w : world) (sourcedir : string)
    (cargo_toml cargo_lock package app_name deps : toml) :
  toml_load toml_loads (os_path_join sourcedir "Cargo.toml") w = (Ok cargo_toml, w) ->
  toml_load toml_loads (os_path_join sourcedir "Cargo.lock") w = (Ok cargo_lock, w) ->
  getitem cargo_toml "package" = Ok package ->
  getitem package "name" = Ok app_name ->
  getitem cargo_lock "package" = Ok deps ->
  match deps with
  | TArr _ => True
  | TStr EmptyString | TTab [] =>
      generate_crate_list toml_loads sourcedir w = (Ok (false, [], []), w)
  | _ => generate_crate_list toml_loads sourcedir w = (Raise TypeError, w)
  end.
Proof.
  intros Ht Hl Hp Hn Hd.
  rewrite (generate_crate_list_loaded _ _ _ _ _ Ht Hl). unfold crate_list_of.
  rewrite Hp. res_simpl. rewrite Hn. res_simpl. rewrite Hd. res_simpl.
  destruct deps as [[|c s]| | | |[|[k v] t]]; try reflexivity; exact I.
Qed.

(** ** The directory argument *)

Lemma ends_with_sep_app (d : string) : ends_with_sep (d +:+ "/") = true.
Proof.
  induction d as [|c d IH]; [reflexivity|].
  rewrite app_cons. cbn [ends_with_sep].
  destruct (d +:+ "/") eqn:E; [|exact IH].
  destruct d; discriminate.
Qed.

Lemma os_path_join_slash (d f : string) :
  d <> "" -> ends_with_sep d = false -> String.prefix "/" f = false ->
  os_path_join (d +:+ "/") f = os_path_join d f.
Proof.
  intros Hd Hs Hf. unfold os_path_join. rewrite Hf, Hs, ends_with_sep_app.
  rewrite orb_true_r. destruct (String.eqb_spec d "") as [->|_]; [congruence|].
  cbn [orb]. apply app_assoc_text.
Qed.

(** X3: a directory given with a slash at its end is read like the same
    directory given without. *)
Theorem trailing_slash (toml_loads : string -> option toml)
    (sourcedir : string) (w : world) :
  sourcedir <> "" ->
  ends_with_sep sourcedir = false ->
  generate_crate_list toml_loads (sourcedir +:+ "/") w
  = generate_crate_list toml_loads sourcedir w.
Proof.
  intros Hd Hs. unfold generate_crate_list.
  now rewrite !(os_path_join_slash sourcedir) by (assumption || reflexivity).
Qed.

(** ** The script from the lock file to the printed list *)

Lemma main_after_helper (toml_loads : string -> option toml)
    (argv : list string) (sourcedir : string) (w : world)
    (s : bool) (reg oth : list crate) :
  argv !! 1%nat = Some sourcedir ->
  generate_crate_list toml_loads sourcedir w = (Ok (s, reg, oth), w) ->
  main toml_loads argv w =
  if s || truthy reg then
    (print "crates = [";;
     (if s then print "    (name, version)," else mret tt);;
     print_crates reg;;
     print "]") w
  else (Ok tt, w).
Proof.
  intros Hargv Hgen. unfold main. unfold mbind at 1 2. unfold io_bind, lift.
  rewrite Hargv, Hgen. now destruct (s || truthy reg).
Qed.

(** Crates whose lines can all be built are all printed, in order. *)
Lemma print_crates_lines (cs : list crate) (lines : list string) (w : world) :
  Forall2 (fun c line => crate_line c = Ok line) cs lines ->
  print_crates cs w = (Ok tt, World (files w) (stdout w ++ lines)).
Proof.
  intros H. revert w. induction H as [|c line cs lines Hc _ IH]; intros w.
  - cbn. unfold mret, io_ret. now rewrite world_eta.
  - cbn [print_crates]. unfold mbind, io_bind, lift, print. rewrite Hc.
    rewrite IH. cbn [files stdout]. now rewrite <- app_assoc.
Qed.

Lemma registry_part_empty (app_name : toml) (deps : list toml) :
  Forall (fun d => is_Some (crate_of d)) deps ->
  existsb (self_dep app_name) deps || truthy (registry_part app_name deps) = false <->
  Forall (fun d => getitem d "source" <> Ok (TStr registry_source)) deps.
Proof.
  unfold registry_part, self_dep.
  induction 1 as [|d deps [c Hd] _ IH]; cbn; [split; [constructor | reflexivity]|].
  rewrite Forall_cons, <- IH, <- registry_dep_false.
  destruct (registry_dep d), (named app_name d); cbn; rewrite ?Hd; cbn.
  - split; [discriminate | intros [? _]; discriminate].
  - rewrite orb_true_r. split; [discriminate | intros [? _]; discriminate].
  - tauto.
  - tauto.
Qed.

(** X4: when the helper raises, or when there is no directory argument,
    the script ends in that exception and prints nothing. *)
Theorem main_silent_on_failure (toml_loads : string -> option toml)
    (argv : list string) (w : world) :
  (argv !! 1%nat = None -> main toml_loads argv w = (Raise IndexError, w)) /\
  (forall sourcedir e w',
     argv !! 1%nat = Some sourcedir ->
     generate_crate_list toml_loads sourcedir w = (Raise e, w') ->
     main toml_loads argv w = (Raise e, w)).
Proof.
  split.
  - intros H. unfold main. unfold mbind at 1. unfold io_bind, lift. now rewrite H.
  - intros sourcedir e w' Hargv Hgen.
    pose proof (generate_crate_list_world toml_loads sourcedir w) as Hw.
    rewrite Hgen in Hw. cbn in Hw. subst w'.
    unfold main. unfold mbind at 1 2. unfold io_bind, lift.
    now rewrite Hargv, Hgen.
Qed.

(** X6: on a lock list whose entries all have a name and a version, the
    script prints nothing at all exactly when no entry has the registry
    tag as its source. *)
Theorem script_silent_iff (toml_loads : string -> option toml)
    (argv : list string) (w : world) (sourcedir : string)
    (cargo_toml cargo_lock package app_name : toml) (deps : list toml) :
  argv !! 1%nat = Some sourcedir ->
  toml_load toml_loads (os_path_join sourcedir "Cargo.toml") w = (Ok cargo_toml, w) ->
  toml_load toml_loads (os_path_join sourcedir "Cargo.lock") w = (Ok cargo_lock, w) ->
  getitem cargo_toml "package" = Ok package ->
  getitem package "name" = Ok app_name ->
  getitem cargo_lock "package" = Ok (TArr deps) ->
  Forall (fun d => is_Some (crate_of d)) deps ->
  exists r out,
    main toml_loads argv w = (r, World (files w) (stdout w ++ out)) /\
    (out = [] <->
     Forall (fun d => getitem d "source" <> Ok (TStr registry_source)) deps).
Proof.
  intros Hargv Ht Hl Hp Hn Hd Hok.
  pose proof (generate_crate_list_ok _ _ _ _ _ Ht Hl _ _ _ Hp Hn Hd Hok) as Hgen.
  rewrite (main_after_helper _ _ _ _ _ _ _ Hargv Hgen).
  pose proof (registry_part_empty app_name deps Hok) as Hiff.
  destruct (existsb (self_dep app_name) deps || truthy (registry_part app_name deps))
    eqn:Hany.
  - assert (Hno : ~ Forall (fun d => getitem d "source" <> Ok (TStr registry_source)) deps)
      by (intros Hall; apply Hiff in Hall; discriminate).
    destruct (existsb (self_dep app_name) deps).
    + unfold mbind, io_bind, print. cbn [files stdout].
      destruct (print_crates_out (registry_part app_name deps)
                  (World (files w)
                     ((stdout w ++ ["crates = ["]) ++ ["    (name, version),"])))
        as (r & out & Hp' & _ & _).
      cbn [files stdout] in Hp'. rewrite Hp'. cbn [files stdout].
      destruct r as [[]|e]; eexists _, ("crates = [" :: _);
        (split; [rewrite <- !app_assoc; reflexivity
                | split; [discriminate | intros Hall; now destruct Hno]]).
    + unfold mbind, io_bind, print. cbn [files stdout].
      unfold mret at 1. unfold io_ret.
      destruct (print_crates_out (registry_part app_name deps)
                  (World (files w) (stdout w ++ ["crates = ["])))
        as (r & out & Hp' & _ & _).
      cbn [files stdout] in Hp'. rewrite Hp'. cbn [files stdout].
      destruct r as [[]|e]; eexists _, ("crates = [" :: _);
        (split; [rewrite <- !app_assoc; reflexivity
                | split; [discriminate | intros Hall; now destruct Hno]]).
  - exists (Ok tt), []. rewrite world_eta. split; [reflexivity|].
    split; [intros _; now apply Hiff | reflexivity].
Qed.

Lemma string_entry_crate (d : toml) :
  (exists n v, getitem d "name" = Ok (TStr n) /\ getitem d "version" = Ok (TStr v)) ->
  exists n v, crate_of d = Some (TStr n, TStr v) /\
    crate_line (TStr n, TStr v)
    = Ok (((("    ('" +:+ n) +:+ "', '") +:+ v) +:+ "'),").
Proof.
  intros (n & v & Hn & Hv). exists n, v. split; [|reflexivity].
  now apply crate_of_some.
Qed.

Lemma registry_lines (p : toml -> bool) (deps : list toml) :
  Forall (fun d => exists n v, getitem d "name" = Ok (TStr n) /\
                               getitem d "version" = Ok (TStr v)) deps ->
  exists lines,
    Forall2 (fun d line => exists c, crate_of d = Some c /\ crate_line c = Ok line)
      (List.filter p deps) lines /\
    Forall2 (fun c line => crate_line c = Ok line)
      (omap crate_of (List.filter p deps)) lines.
Proof.
  induction 1 as [|d deps Hd _ (lines & IH1 & IH2)]; cbn.
  - exists []. split; constructor.
  - destruct (p d); [|now exists lines].
    destruct (string_entry_crate d Hd) as (n & v & Hc & Hline).
    eexists (_ :: lines). cbn. rewrite Hc. cbn.
    split; constructor; eauto.
Qed.

Lemma existsb_pointwise {A} (f g : A -> bool) (l : list A) :
  (forall x, f x = g x) -> existsb f l = existsb g l.
Proof.
  intros H. induction l as [|x l IH]; [reflexivity|]. cbn. now rewrite H, IH.
Qed.

(** X7: from the lock file to the printed list.  On a lock list whose
    names and versions are strings and that has an entry whose source is
    the registry string, the script ends normally and prints the opening
    line, the placeholder line if such an entry carries the package name,
    the line of every such entry of another name in the order of the lock
    list, and the closing line. *)
Theorem script_output_of_lock (toml_loads : string -> option toml)
    (argv : list string) (w : world) (sourcedir : string)
    (cargo_toml cargo_lock package app_name : toml) (deps : list toml) :
  argv !! 1%nat = Some sourcedir ->
  toml_load toml_loads (os_path_join sourcedir "Cargo.toml") w = (Ok cargo_toml, w) ->
  toml_load toml_loads (os_path_join sourcedir "Cargo.lock") w = (Ok cargo_lock, w) ->
  getitem cargo_toml "package" = Ok package ->
  getitem package "name" = Ok app_name ->
  getitem cargo_lock "package" = Ok (TArr deps) ->
  Forall (fun d => exists n v, getitem d "name" = Ok (TStr n) /\
                               getitem d "version" = Ok (TStr v)) deps ->
  Exists (fun d => getitem d "source" = Ok (TStr registry_source)) deps ->
  exists lines,
    main toml_loads argv w =
    (Ok tt,
     World (files w)
       (stdout w ++
        "crates = ["
        :: (if existsb (fun d => registry_sourced d && named app_name d) deps
            then ["    (name, version),"] else [])
        ++ lines ++ ["]"])) /\
    Forall2 (fun d line => exists c, crate_of d = Some c /\ crate_line c = Ok line)
      (List.filter
         (fun d => registry_sourced d && negb (named app_name d)) deps)
      lines.
Proof.
  intros Hargv Ht Hl Hp Hn Hd Hstr Hreg.
  assert (Hok : Forall (fun d => is_Some (crate_of d)) deps).
  { eapply Forall_impl; [exact Hstr|]. intros d Hs.
    destruct (string_entry_crate d Hs) as (n & v & Hc & _). eauto. }
  pose proof (generate_crate_list_ok _ _ _ _ _ Ht Hl _ _ _ Hp Hn Hd Hok) as Hgen.
  rewrite (main_after_helper _ _ _ _ _ _ _ Hargv Hgen).
  destruct (registry_lines (fun d => registry_dep d && negb (named app_name d))
              deps Hstr) as (lines & Hlines & Hprint).
  exists lines.
  rewrite <- (existsb_pointwise _ _ deps (self_dep_sourced app_name)).
  rewrite <- (List.filter_ext
                (fun d => registry_dep d && negb (named app_name d)) _
                (fun d => f_equal (fun b => b && negb (named app_name d))
                            (registry_dep_sourced d))).
  split; [|exact Hlines].
  assert (Hany : existsb (self_dep app_name) deps
                 || truthy (registry_part app_name deps) = true).
  { destruct (_ || _) eqn:E; [reflexivity|].
    apply (registry_part_empty app_name deps Hok) in E.
    apply Exists_exists in Hreg as (d & Hin & Hsrc).
    rewrite Forall_forall in E. now destruct (E d Hin). }
  rewrite Hany. unfold mbind, io_bind, print. cbn [files stdout].
  destruct (existsb (self_dep app_name) deps).
  - cbn [files stdout]. unfold registry_part.
    rewrite (print_crates_lines _ _ _ Hprint). cbn [files stdout].
    rewrite <- !app_assoc. reflexivity.
  - unfold mret at 1. unfold io_ret. unfold registry_part.
    rewrite (print_crates_lines _ _ _ Hprint). cbn [files stdout].
    rewrite <- !app_assoc. reflexivity.
Qed.

(** ** Splitting and joining the version *)

Lemma split_nonempty (c : ascii) (s : string) : split c s <> [].
Proof.
  destruct s as [|a s]; cbn; [discriminate|].
  destruct (Ascii.eqb a c); [discriminate|]. now destruct (split c s).
Qed.

Lemma join_cons_head (sep : string) (a : ascii) (p : string) (ps : list string) :
  join sep (String a p :: ps) = String a (join sep (p :: ps)).
Proof. now destruct ps. Qed.

(** Joining what [split] gives with the separator gives the text back. *)
Lemma join_split (c : ascii) (s : string) :
  join (String c EmptyString) (split c s) = s.
Proof.
  induction s as [|a s IH]; [reflexivity|]. cbn [split].
  destruct (Ascii.eqb_spec a c) as [->|Hne].
  - pose proof (split_nonempty c s) as Hne.
    destruct (split c s) as [|p ps]; [congruence|].
    change (String c (join (String c EmptyString) (p :: ps)) = String c s).
    now rewrite IH.
  - pose proof (split_nonempty c s) as Hnil.
    destruct (split c s) as [|p ps]; [congruence|].
    now rewrite join_cons_head, IH.
Qed.

Lemma split_no_sep (c : ascii) (s : string) :
  Forall (fun p => has_char c p = false) (split c s).
Proof.
  induction s as [|a s IH]; cbn [split]; [now repeat constructor|].
  destruct (Ascii.eqb a c) eqn:E; [now constructor|].
  destruct (split c s) as [|p ps]; [repeat constructor; cbn; now rewrite E|].
  apply Forall_cons in IH as [Hp Hps]. constructor; [|exact Hps].
  cbn. now rewrite E.
Qed.

Lemma length_split (c : ascii) (s : string) :
  length (split c s) = S (count_char c s).
Proof.
  induction s as [|a s IH]; cbn [split count_char]; [reflexivity|].
  destruct (Ascii.eqb a c); cbn; [now rewrite IH|].
  pose proof (split_nonempty c s). destruct (split c s); [congruence|].
  exact IH.
Qed.

Lemma count_join (c : ascii) (parts : list string) :
  Forall (fun p => has_char c p = false) parts ->
  count_char c (join (String c EmptyString) parts) = pred (length parts).
Proof.
  induction 1 as [|p ps Hp Hps IH]; [reflexivity|].
  destruct ps as [|q ps].
  - cbn. now apply count_char_none.
  - change (join (String c EmptyString) (p :: q :: ps))
      with (p +:+ String c EmptyString +:+ join (String c EmptyString) (q :: ps)).
    rewrite !count_char_app, (count_char_none _ _ Hp), IH. cbn.
    now rewrite Ascii.eqb_refl.
Qed.

Lemma prefix_empty (s : string) : String.prefix "" s = true.
Proof. now destruct s. Qed.

Lemma prefix_app_l (a x y : string) :
  String.prefix (a +:+ x) (a +:+ y) = String.prefix x y.
Proof.
  induction a as [|c a IH]; [reflexivity|].
  rewrite !app_cons. cbn. destruct (ascii_dec c c); [exact IH | congruence].
Qed.

Lemma prefix_join_take (sep : string) (k : nat) (parts : list string) :
  String.prefix (join sep (take k parts)) (join sep parts) = true.
Proof.
  revert k. induction parts as [|p ps IH]; intros k.
  - rewrite take_nil. reflexivity.
  - destruct k as [|k]; [apply prefix_empty|].
    destruct ps as [|q ps].
    + rewrite firstn_all2 by (cbn; lia). cbn.
      rewrite <- (app_empty_r p) at 2. apply prefix_app.
    + destruct k as [|k].
      * cbn. apply prefix_app.
      * specialize (IH (S k)). cbn [take firstn join] in *.
        destruct (take k ps) as [|r rs] eqn:E; rewrite !prefix_app_l;
          cbn [join] in IH; exact IH.
Qed.

(** X13: the short version is a prefix of the version, holds at most one
    dot, and is its own short version. *)
Theorem shortver_prefix (version : string) :
  String.prefix (shortver version) version = true /\
  count_char "." (shortver version) <= 1 /\
  shortver (shortver version) = shortver version.
Proof.
  assert (Hcount : forall v, count_char "." (shortver v) <= 1).
  { intros v. unfold shortver. rewrite count_join.
    - rewrite length_take. lia.
    - apply Forall_take, split_no_sep. }
  assert (Hwhole : forall v, count_char "." v <= 1 -> shortver v = v).
  { intros v Hv. unfold shortver. rewrite take_ge.
    - apply join_split.
    - rewrite length_split. lia. }
  split; [|split].
  - unfold shortver. rewrite <- (join_split "." version) at 2.
    apply prefix_join_take.
  - apply Hcount.
  - apply Hwhole, Hcount.
Qed.

(** X14: the short version is the version itself exactly when the version
    holds at most one dot; a longer version loses everything from its
    second dot on. *)
Theorem shortver_whole_iff (version : string) :
  shortver version = version <-> count_char "." version <= 1.
Proof.
  split.
  - intros H. rewrite <- H. unfold shortver. rewrite count_join.
    + rewrite length_take. lia.
    + apply Forall_take, split_no_sep.
  - intros Hv. unfold shortver. rewrite take_ge.
    + apply join_split.
    + rewrite length_split. lia.
Qed.

(** ** The further properties at the sample manifests *)

Lemma returns_iff_entries_complete_witness :
  (exists r,
     generate_crate_list (sample_loads (descriptor "foo") (lock_of sample_deps))
       "src" sample_world = (Ok r, sample_world)) <->
  Forall (fun d => exists n v, getitem d "name" = Ok n /\
                               getitem d "version" = Ok v) sample_deps.
Proof.
  apply (returns_iff_entries_complete
           (sample_loads (descriptor "foo") (lock_of sample_deps))
           sample_world "src" (descriptor "foo") (lock_of sample_deps)
           (TTab [("name", TStr "foo")]) (TStr "foo") sample_deps);
    reflexivity.
Defined.

Lemma raised_exceptions_witness :
  let e := KeyError "version" in
  sample_world = sample_world /\
  (e = FileNotFoundError (os_path_join "src" "Cargo.toml") \/
   e = TomlDecodeError (os_path_join "src" "Cargo.toml") \/
   e = FileNotFoundError (os_path_join "src" "Cargo.lock") \/
   e = TomlDecodeError (os_path_join "src" "Cargo.lock") \/
   e = KeyError "package" \/ e = KeyError "name" \/ e = KeyError "version" \/
   e = TypeError).
Proof.
  apply (raised_exceptions
           (sample_loads (descriptor "foo") (lock_of [TTab [("name", TStr "bar")]]))
           "src" sample_world sample_world (KeyError "version")).
  reflexivity.
Defined.

Lemma trailing_slash_witness :
  generate_crate_list (sample_loads (descriptor "foo") (lock_of sample_deps))
    "src/" sample_world
  = generate_crate_list (sample_loads (descriptor "foo") (lock_of sample_deps))
      "src" sample_world.
Proof.
  apply (trailing_slash (sample_loads (descriptor "foo") (lock_of sample_deps))
           "src" sample_world); [discriminate | reflexivity].
Defined.

Lemma main_silent_on_failure_witness :
  main (sample_loads (descriptor "foo") (lock_of [TTab [("name", TStr "bar")]]))
    ["cargo.py"; "src"] sample_world
  = (Raise (KeyError "version"), sample_world).
Proof.
  destruct (main_silent_on_failure
              (sample_loads (descriptor "foo") (lock_of [TTab [("name", TStr "bar")]]))
              ["cargo.py"; "src"] sample_world) as [_ H].
  apply (H "src" (KeyError "version") sample_world); reflexivity.
Defined.

Lemma crate_line_injective_witness : "bar" = "bar" /\ "2.0" = "2.0".
Proof.
  apply (crate_line_injective "bar" "2.0" "bar" "2.0" "    ('bar', '2.0'),");
    reflexivity.
Defined.

Lemma script_silent_iff_witness :
  exists r out,
    main (sample_loads (descriptor "foo") (lock_of [entry "baz" "0.1" None]))
      ["cargo.py"; "src"] sample_world
    = (r, World (files sample_world) (stdout sample_world ++ out)) /\
    (out = [] <->
     Forall (fun d => getitem d "source" <> Ok (TStr registry_source))
       [entry "baz" "0.1" None]).
Proof.
  apply (script_silent_iff
           (sample_loads (descriptor "foo") (lock_of [entry "baz" "0.1" None]))
           ["cargo.py"; "src"] sample_world "src" (descriptor "foo")
           (lock_of [entry "baz" "0.1" None])
           (TTab [("name", TStr "foo")]) (TStr "foo") [entry "baz" "0.1" None]);
    try reflexivity.
  entries_ok.
Defined.

Lemma script_output_of_lock_witness :
  exists lines,
    main (sample_loads (descriptor "foo") (lock_of sample_deps))
      ["cargo.py"; "src"] sample_world =
    (Ok tt,
     World (files sample_world)
       (stdout sample_world ++
        "crates = ["
        :: (if existsb (fun d => registry_sourced d && named (TStr "foo") d)
                 sample_deps
            then ["    (name, version),"] else [])
        ++ lines ++ ["]"])) /\
    Forall2 (fun d line => exists c, crate_of d = Some c /\ crate_line c = Ok line)
      (List.filter
         (fun d => registry_sourced d && negb (named (TStr "foo") d))
         sample_deps)
      lines.
Proof.
  apply (script_output_of_lock
           (sample_loads (descriptor "foo") (lock_of sample_deps))
           ["cargo.py"; "src"] sample_world "src" (descriptor "foo")
           (lock_of sample_deps)
           (TTab [("name", TStr "foo")]) (TStr "foo") sample_deps);
    try reflexivity.
  - repeat constructor; eexists _, _; split; reflexivity.
  - constructor. reflexivity.
Defined.

Lemma lock_not_an_array_witness :
  generate_crate_list
    (sample_loads (descriptor "foo") (TTab [("package", TStr "")]))
    "src" sample_world
  = (Ok (false, [], []), sample_world).
Proof.
  exact (lock_not_an_array
           (sample_loads (descriptor "foo") (TTab [("package", TStr "")]))
           sample_world "src" (descriptor "foo") (TTab [("package", TStr "")])
           (TTab [("name", TStr "foo")]) (TStr "foo") (TStr "")
           eq_refl eq_refl eq_refl eq_refl eq_refl).
Defined.

Lemma populate_sources_keeps_order_witness :
  exists r,
    populate_sources [TStr "main.tar.gz"] [(TStr "libc", TStr "0.2.1")] = Ok r /\
    take 1 r = [TStr "main.tar.gz"] /\
    length r = 2 /\
    forall i c, [(TStr "libc", TStr "0.2.1")] !! i = Some c ->
      exists src, r !! (1 + i)%nat = Some src /\ crate_source c = Ok src.
Proof.
  eexists. split; [reflexivity|].
  apply (populate_sources_keeps_order [TStr "main.tar.gz"] _
           [(TStr "libc", TStr "0.2.1")]).
  reflexivity.
Defined.

Lemma populate_sources_type_error_witness :
  populate_sources [] [(TStr "libc", TStr "0.2.1"); (TStr "cfg-if", TInt 1)]
  = Raise TypeError.
Proof.
  destruct (populate_sources_type_error []
              [(TStr "libc", TStr "0.2.1"); (TStr "cfg-if", TInt 1)]) as [_ H].
  apply H. right. left. intros n v. discriminate.
Defined.

Lemma download_filename_injective_witness : "libc" = "libc" /\ "0.2.1" = "0.2.1".
Proof.
  eapply (download_filename_injective "libc" "0.2.1" "libc" "0.2.1");
    reflexivity.
Defined.

Lemma filename_injective_witness :
  "cfg-if" = "cfg-if" /\ "1" = "1" /\ "0.0" = "0.0".
Proof.
  eapply (filename_injective "cfg-if" "1" "0.0" "cfg-if" "1" "0.0");
    reflexivity.
Defined.

(** ** The helper on objects at the sample manifests *)

(** The parser's objects for the two sample manifests. *)
Example sample_store_addresses :
  let '(cargo_toml, h) := store (descriptor "foo") [] in
  let '(cargo_lock, h') := store (lock_of sample_deps) h in
  cargo_toml = VRef 1 /\ cargo_lock = VRef 6 /\ h' = sample_store.
Proof. repeat split. Qed.

(** On objects the scenario gives the flag and two new lists with the
    tuples that [crate_list_of] gives on the documents. *)
Example scenario_on_objects :
  crate_list_heap 4 10 (VRef 1) (VRef 6) sample_store
  = (Some (Returns (true, VRef 7, VRef 8)),
     sample_store ++ [OList [VTuple (VStr "bar") (VStr "2.0")];
                      OList [VTuple (VStr "baz") (VStr "0.1")]]).
Proof. reflexivity. Qed.

(** A lock list that holds one and the same entry object twice gives its
    tuple twice, and an entry without version ends the run in the
    [KeyError] with the tuples appended so far left in the new list. *)
Example shared_entry_and_missing_version :
  let h := [ODict [("name", VStr "foo")];
            ODict [("package", VRef 0)];
            ODict [("name", VStr "bar"); ("version", VStr "2.0")];
            ODict [("name", VStr "baz")];
            OList [VRef 2; VRef 2; VRef 3];
            ODict [("package", VRef 4)]] in
  crate_list_heap 4 10 (VRef 1) (VRef 5) h
  = (Some (Raises (KeyError "version")),
     h ++ [OList [];
           OList [VTuple (VStr "bar") (VStr "2.0");
                  VTuple (VStr "bar") (VStr "2.0")]]).
Proof. reflexivity. Qed.

(** With a bound below the length of the lock list the model stops
    before the loop is through. *)
Example bound_too_small :
  fst (crate_list_heap 3 10 (VRef 1) (VRef 6) sample_store) = None.
Proof. reflexivity. Qed.
